(** * Session memory and context trimming of the legal agent

    A shallow embedding of [src/agents/legalAgent.ts] (class [LegalAgent]):
    the context trimmer [trimMessages], the session identifier generator,
    the buffered request path [processQuery], the streaming request path
    [getStream] with its monitoring generator [monitorStream], and the
    logging and error wrapping they perform.

    A JavaScript string is modelled by the [string] that holds its UTF-8
    bytes (a lone surrogate as the three bytes of its code point), which is
    how the literals of the source are written here.  Where the source
    counts or cuts in UTF-16 code units ([length], [substring]) the model
    does so too, with [js_length] and [js_take]. *)

From Stdlib Require Import Ascii String.
From stdpp Require Import base gmap list strings pretty.

(** ** JavaScript strings *)

(** The number of UTF-16 code units of the character whose UTF-8 encoding
    starts with the byte [c]: one for a character of the basic plane (one to
    three bytes), two for a supplementary character (four bytes, a surrogate
    pair), none for a continuation byte. *)
Definition units_of_byte (c : ascii) : nat :=
  let b := nat_of_ascii c in
  if b <? 128 then 1
  else if b <? 192 then 0
  else if b <? 240 then 1
  else 2.

(** [s.length] *)
Fixpoint js_length (s : string) : nat :=
  match s with
  | EmptyString => 0
  | String c s' => units_of_byte c + js_length s'
  end.

Definition byte_at (i : nat) (s : string) : nat :=
  match String.get i s with
  | Some c => nat_of_ascii c
  | None => 128
  end.

(** The high surrogate of the supplementary character whose encoding is
    [c] followed by the first bytes of [s'], as the three bytes of its code
    point: with [w] the ten bits above bit 10 of the code point minus
    0x10000, the surrogate is 0xD800 + [w]. *)
Definition high_surrogate (c : ascii) (s' : string) : string :=
  let w := ((nat_of_ascii c mod 8) * 256 + (byte_at 0 s' mod 64) * 4
            + (byte_at 1 s' mod 64) / 16 - 64) mod 1024 in
  String (ascii_of_nat 237)
    (String (ascii_of_nat (160 + w / 64))
       (String (ascii_of_nat (128 + w mod 64)) EmptyString)).

(** [s.substring(0, n)]: the first [n] code units of [s].  When the cut
    falls inside a surrogate pair, the result ends with the lone high
    surrogate. *)
Fixpoint js_take (n : nat) (s : string) : string :=
  match s with
  | EmptyString => EmptyString
  | String c s' =>
      if units_of_byte c <=? n
      then String c (js_take (n - units_of_byte c) s')
      else if n =? 1 then high_surrogate c s'
      else EmptyString
  end.

(** ** Messages *)

(** The values of [BaseMessage._getType()]. *)
Inductive MessageType :=
  | MHuman | MAi | MSystem | MTool | MFunction | MGeneric.

(** [BaseMessage.content] is either a string or an array of content blocks. *)
Inductive MessageContent :=
  | ContentString (s : string)
  | ContentComplex (blocks : list string).

Record BaseMessage := {
  _getType : MessageType;
  content : MessageContent
}.

#[global] Instance MessageType_eq_dec : EqDecision MessageType.
Proof. solve_decision. Defined.
#[global] Instance MessageContent_eq_dec : EqDecision MessageContent.
Proof. solve_decision. Defined.
#[global] Instance BaseMessage_eq_dec : EqDecision BaseMessage.
Proof. solve_decision. Defined.

(** [new HumanMessage({ content: query })] *)
Definition HumanMessage (query : string) : BaseMessage :=
  {| _getType := MHuman; content := ContentString query |}.

(** ** Context trimmer *)

(** [private readonly maxContextMessages: number = 10] *)
Definition maxContextMessages : nat := 10.

(** [msg => msg._getType() === 'system'] *)
Definition is_system (msg : BaseMessage) : bool :=
  bool_decide (_getType msg = MSystem).

(** [Array.prototype.slice(-n)]: the relative start is [max (len - n) 0];
    [slice(-0)] is [slice(0)], the whole array. *)
Definition slice_from_end {A} (n : nat) (l : list A) : list A :=
  match n with
  | O => l
  | S _ => drop (length l - n) l
  end.

(** [trimMessages] with the field [this.maxContextMessages] made explicit. *)
Definition trimMessagesWith (maxCount : nat) (messages : list BaseMessage)
  : list BaseMessage :=
  if length messages <=? maxCount then messages
  else
    let systemMessages := List.filter is_system messages in
    let recentMessages := slice_from_end maxCount messages in
    systemMessages ++ recentMessages.

Definition trimMessages (messages : list BaseMessage) : list BaseMessage :=
  trimMessagesWith maxContextMessages messages.

(** ** Arrays as heap objects

    [trimMessages] receives and returns array references, and the arrays
    hold references to message objects.  [filter], [slice] and the spread
    syntax allocate fresh arrays; nothing writes to an existing one. *)
Module ArrayHeap.

Definition ref := nat.

Record heap := {
  arrays : list (list ref);
  objects : list BaseMessage
}.

Definition alloc (a : list ref) (h : heap) : ref * heap :=
  (length (arrays h), {| arrays := arrays h ++ [a]; objects := objects h |}).

(** The message objects an array refers to; [None] on a dangling reference. *)
Fixpoint resolve (h : heap) (a : list ref) : option (list BaseMessage) :=
  match a with
  | [] => Some []
  | r :: a' =>
      match objects h !! r, resolve h a' with
      | Some m, Some ms => Some (m :: ms)
      | _, _ => None
      end
  end.

(** [messages.filter(msg => msg._getType() === 'system')] on references. *)
Fixpoint filter_system (h : heap) (a : list ref) : option (list ref) :=
  match a with
  | [] => Some []
  | r :: a' =>
      match objects h !! r, filter_system h a' with
      | Some m, Some rest => Some (if is_system m then r :: rest else rest)
      | _, _ => None
      end
  end.

(** [[...src]] *)
Definition spread (src : ref) (h : heap) : option (ref * heap) :=
  match arrays h !! src with
  | Some a => Some (alloc a h)
  | None => None
  end.

Definition trimMessagesWith (maxCount : nat) (messages : ref) (h : heap)
  : option (ref * heap) :=
  match arrays h !! messages with
  | None => None
  | Some a =>
      if length a <=? maxCount then Some (messages, h)
      else
        match filter_system h a with
        | None => None
        | Some sys =>
            let '(systemMessages, h1) := alloc sys h in
            let '(recentMessages, h2) := alloc (slice_from_end maxCount a) h1 in
            Some (alloc (sys ++ slice_from_end maxCount a) h2)
        end
  end.

Definition trimMessages : ref -> heap -> option (ref * heap) :=
  trimMessagesWith maxContextMessages.

(** [this.trimMessages([...sessionMessages])] as in [processQuery] and
    [getStream]. *)
Definition trim_for_request (sessionMessages : ref) (h : heap)
  : option (ref * heap) :=
  match spread sessionMessages h with
  | Some (copy, h1) => trimMessages copy h1
  | None => None
  end.

(** The contents of an array, message by message. *)
Definition contents (h : heap) (l : ref) : option (list BaseMessage) :=
  match arrays h !! l with
  | Some a => resolve h a
  | None => None
  end.

End ArrayHeap.

(** ** Errors, results and the log *)

(** A JavaScript [Error]; the code reads only its [message]. *)
Record Error := { message : string }.

Inductive Result (A : Type) :=
  | Ok (a : A)
  | Throw (e : Error).
Arguments Ok {A} a.
Arguments Throw {A} e.

Inductive LogLevel := LevelInfo | LevelError.

Inductive LogValue :=
  | LStr (s : string)
  | LNum (n : nat).

(** Modelled from the spec: [Logger] (utils/logger) is not among the
    sources; the spec treats logging as an external collaborator.
    [Logger.info] and [Logger.error] are taken to record their message and
    their metadata object, in call order. *)
Record LogEntry := {
  level : LogLevel;
  text : string;
  meta : list (string * LogValue)
}.

(** ** Session registry *)

(** Modelled from the spec: [MemorySaverManager] (memory/memorySaverManager)
    is not among the sources.  Spec 4.1 and 4.4: the registry maps a session
    identifier to its ordered sequence of turns; [getMessages] lazily creates
    the session's message store if absent and returns its contents;
    [addMessage] lazily creates the session if absent and appends the turn at
    the end.  Neither fails. *)
Record MemorySaverManager := {
  sessions : gmap string (list BaseMessage)
}.

(** The turns stored for a session, without creating it. *)
Definition stored (sessionId : string) (mem : MemorySaverManager)
  : list BaseMessage :=
  default [] (sessions mem !! sessionId).

Definition getMessages (sessionId : string) (mem : MemorySaverManager)
  : list BaseMessage * MemorySaverManager :=
  match sessions mem !! sessionId with
  | Some turns => (turns, mem)
  | None => ([], {| sessions := <[sessionId := []]> (sessions mem) |})
  end.

Definition addMessage (sessionId : string) (turn : BaseMessage)
    (mem : MemorySaverManager) : MemorySaverManager :=
  {| sessions := <[sessionId := stored sessionId mem ++ [turn]]> (sessions mem) |}.

(** ** Model streams *)

(** An element of a streamed chunk array: a falsy value, a message object,
    or some other truthy value without a string [content] (the metadata). *)
Inductive ChunkElem :=
  | ElemFalsy
  | ElemMessage (m : BaseMessage)
  | ElemOther.

(** A chunk is of type [any]: an array or something else. *)
Inductive Chunk :=
  | ChunkArray (elems : list ChunkElem)
  | ChunkNotArray.

(** The asynchronous iterable returned by [agent.stream]: finitely many
    chunks, then exhaustion or a thrown error. *)
Inductive Stream :=
  | SDone
  | SYield (chunk : Chunk) (rest : Stream)
  | SThrow (e : Error).

Fixpoint stream_chunks (s : Stream) : list Chunk :=
  match s with
  | SYield c rest => c :: stream_chunks rest
  | _ => []
  end.

Fixpoint stream_error (s : Stream) : option Error :=
  match s with
  | SDone => None
  | SYield _ rest => stream_error rest
  | SThrow e => Some e
  end.

(** The guard of the loop body:
    [Array.isArray(chunk) && chunk.length > 0], [const [message, metadata] = chunk],
    [message && typeof message.content === 'string']. *)
Definition chunk_text (chunk : Chunk) : option (string * BaseMessage) :=
  match chunk with
  | ChunkArray (ElemMessage m :: _) =>
      match content m with
      | ContentString s => Some (s, m)
      | ContentComplex _ => None
      end
  | _ => None
  end.

(** One pass through the loop body:
    [fullResponse += message.content; aiMessage = message as AIMessage]. *)
Definition accumulate (chunk : Chunk) (acc : string * option BaseMessage)
  : string * option BaseMessage :=
  match chunk_text chunk with
  | Some (s, m) => (fst acc +:+ s, Some m)
  | None => acc
  end.

(** The [for await] loop of [processQuery]. *)
Fixpoint collect (stream : Stream) (acc : string * option BaseMessage)
  : Result (string * option BaseMessage) :=
  match stream with
  | SDone => Ok acc
  | SYield chunk rest => collect rest (accumulate chunk acc)
  | SThrow e => Throw e
  end.

(** ** Session identifiers *)

Definition radix36_alphabet : string := "0123456789abcdefghijklmnopqrstuvwxyz".

Definition radix36_char (d : nat) : ascii :=
  default "0"%char (String.get (d mod 36) radix36_alphabet).

(** [Number.prototype.toString(36)] of a double in [[0, 1)], given the
    base-36 digits the runtime emits for the fraction: ["0"] for zero,
    otherwise ["0."] followed by the digits. *)
Definition toString36 (fraction : list nat) : string :=
  match fraction with
  | [] => "0"
  | _ => "0." +:+ string_of_list_ascii (radix36_char <$> fraction)
  end.

(** The exact base-36 expansion of [num / den], at most [fuel] digits.  For a
    double whose expansion terminates within its precision, such as
    0.5 = 0.i, these are the digits [toString(36)] prints. *)
Fixpoint exact_radix36 (fuel : nat) (num den : N) : list nat :=
  match fuel with
  | O => []
  | S fuel' =>
      if decide (num = 0%N) then []
      else N.to_nat ((num * 36) / den)
             :: exact_radix36 fuel' ((num * 36) mod den)%N den
  end.

(** [`session_${Date.now()}_${Math.random().toString(36).substr(2, 9)}`],
    given the clock reading and the fraction digits of the random number.
    The rendering holds ASCII characters only, so its code units are its
    bytes. *)
Definition generateDefaultSessionId (now : N) (random : list nat) : string :=
  "session_" +:+ pretty now +:+ "_" +:+ String.substring 2 9 (toString36 random).

(** ** The agent *)

(** The fields of [ModelConfig] (models/modelManager) that the modelled code
    reads. *)
Record ModelConfig := {
  name : string;
  provider : string;
  baseUrl : string
}.

(** The mutable state a request can touch. *)
Record World := {
  modelConfig : ModelConfig;
  isInitialized : bool;
  sessionMemory : MemorySaverManager;
  logged : list LogEntry
}.

(** What the environment answers during one request. *)
Record Env := {
  initChatModel : Result unit;
  createAgent : Result unit;
  agent_stream : list BaseMessage -> Result Stream;
  Date_now : N;
  Math_random : list nat
}.

(** Computations that read and write the world and may throw. *)
Definition M (A : Type) : Type := World -> Result A * World.

Definition ret {A} (a : A) : M A := fun w => (Ok a, w).

Definition bind {A B} (m : M A) (k : A -> M B) : M B :=
  fun w =>
    match m w with
    | (Ok a, w') => k a w'
    | (Throw e, w') => (Throw e, w')
    end.

Definition throw {A} (e : Error) : M A := fun w => (Throw e, w).

(** [try { m } catch (error) { handler error }]; writes made before the
    throw stay. *)
Definition try_catch {A} (m : M A) (handler : Error -> M A) : M A :=
  fun w =>
    match m w with
    | (Ok a, w') => (Ok a, w')
    | (Throw e, w') => handler e w'
    end.

Definition lift {A} (r : Result A) : M A := fun w => (r, w).

Declare Scope agent_scope.
Delimit Scope agent_scope with agent.
Notation "'let*' x ':=' m 'in' k" := (bind m (fun x => k))
  (at level 10, x pattern, m at level 100, k at level 200) : agent_scope.
Notation "m ';;;' k" := (bind m (fun _ => k))
  (at level 100, k at level 200, right associativity) : agent_scope.

Definition log (lvl : LogLevel) (msg : string) (fields : list (string * LogValue))
  : M unit :=
  fun w =>
    (Ok tt,
     {| modelConfig := modelConfig w;
        isInitialized := isInitialized w;
        sessionMemory := sessionMemory w;
        logged := logged w ++ [{| level := lvl; text := msg; meta := fields |}] |}).

Definition set_initialized : M unit :=
  fun w =>
    (Ok tt,
     {| modelConfig := modelConfig w;
        isInitialized := true;
        sessionMemory := sessionMemory w;
        logged := logged w |}).

Definition with_memory (mem : MemorySaverManager) (w : World) : World :=
  {| modelConfig := modelConfig w;
     isInitialized := isInitialized w;
     sessionMemory := mem;
     logged := logged w |}.

(** [this.sessionMemory.getMessages(sessionId)] *)
Definition sessionMemory_getMessages (sessionId : string) : M (list BaseMessage) :=
  fun w =>
    let read := getMessages sessionId (sessionMemory w) in
    (Ok (fst read), with_memory (snd read) w).

(** [this.sessionMemory.addMessage(sessionId, turn)] *)
Definition sessionMemory_addMessage (sessionId : string) (turn : BaseMessage)
  : M unit :=
  fun w => (Ok tt, with_memory (addMessage sessionId turn (sessionMemory w)) w).

Definition read_modelConfig : M ModelConfig := fun w => (Ok (modelConfig w), w).

Local Open Scope agent_scope.

(** The suspended states of the asynchronous generator [monitorStream]:
    created but not started, suspended at [yield chunk] inside the loop, or
    finished. *)
Inductive Generator :=
  | GenSuspendedStart (stream : Stream) (sessionId : string)
      (userMessage : BaseMessage)
  | GenSuspendedYield (chunk : Chunk) (stream : Stream) (sessionId : string)
      (acc : string * option BaseMessage)
  | GenClosed.

Inductive IteratorResult :=
  | IterValue (chunk : Chunk)
  | IterDone.

Section Agent.

Variable env : Env.

(** [private async initializeAgent()].  The write to
    [process.env.OLLAMA_BASE_URL] is left out: nothing modelled reads it. *)
Definition initializeAgent : M unit :=
  try_catch
    (let* cfg := read_modelConfig in
     log LevelInfo "Initializing LLM..."
       [("model", LStr (name cfg)); ("provider", LStr (provider cfg));
        ("baseUrl", LStr (baseUrl cfg))] ;;;
     lift (initChatModel env) ;;;
     log LevelInfo "LLM initialized, creating agent..." [] ;;;
     lift (createAgent env) ;;;
     set_initialized ;;;
     log LevelInfo
       ("Legal Agent initialized successfully with model: " +:+ name cfg) [])
    (fun error =>
       log LevelError "Failed to initialize Legal Agent"
         [("error", LStr (message error))] ;;;
       throw error).

(** [if (!this.isInitialized) { await this.initializeAgent(); }] *)
Definition ensureInitialized : M unit :=
  fun w => if isInitialized w then ret tt w else initializeAgent w.

(** [sessionId || this.generateDefaultSessionId()]: an absent and an empty
    identifier are both falsy. *)
Definition effectiveSessionId (sessionId : option string) : string :=
  match sessionId with
  | Some (String c s) => String c s
  | _ => generateDefaultSessionId (Date_now env) (Math_random env)
  end.

(** The common head of both request paths: log the truncated query, read
    and trim the history, append the new user turn, invoke the model. *)
Definition open_stream (infoText : string) (query : string)
    (sessionId : string) (newUserMessage : BaseMessage) : M Stream :=
  log LevelInfo infoText
    [("query", LStr (js_take 100 query +:+ "..."));
     ("sessionId", LStr sessionId)] ;;;
  let* sessionMessages := sessionMemory_getMessages sessionId in
  let trimmedMessages := trimMessages sessionMessages in
  let allMessages := trimmedMessages ++ [newUserMessage] in
  lift (agent_stream env allMessages).

(** The [try] block of [processQuery]. *)
Definition processQuery_try (query : string) (sessionId : option string)
  : M string :=
  let effectiveSessionId := effectiveSessionId sessionId in
  let newUserMessage := HumanMessage query in
  let* stream :=
    open_stream "Processing legal query with session" query
      effectiveSessionId newUserMessage in
  let* collected := lift (collect stream ("", None)) in
  let fullResponse := fst collected in
  let aiMessage := snd collected in
  sessionMemory_addMessage effectiveSessionId newUserMessage ;;;
  match aiMessage with
  | Some m => sessionMemory_addMessage effectiveSessionId m
  | None => ret tt
  end ;;;
  let* saved := sessionMemory_getMessages effectiveSessionId in
  log LevelInfo "クエリが正常に処理されました"
    [("responseLength", LNum (js_length fullResponse));
     ("sessionId", LStr effectiveSessionId);
     ("messageCount", LNum (length saved))] ;;;
  ret fullResponse.

(** The [catch] block of [processQuery]. *)
Definition processQuery_catch (query : string) (error : Error) : M string :=
  log LevelError "クエリ処理中にエラーが発生しました"
    [("error", LStr (message error)); ("query", LStr query)] ;;;
  throw {| message := "クエリ処理に失敗しました: " +:+ message error |}.

(** [async processQuery(query, sessionId?)] *)
Definition processQuery (query : string) (sessionId : option string)
  : M string :=
  ensureInitialized ;;;
  try_catch (processQuery_try query sessionId) (processQuery_catch query).

(** The [try] block of [getStream]: the monitoring generator is returned
    unstarted. *)
Definition getStream_try (query : string) (sessionId : option string)
  : M Generator :=
  let effectiveSessionId := effectiveSessionId sessionId in
  let newUserMessage := HumanMessage query in
  let* stream :=
    open_stream "Processing legal query stream with session" query
      effectiveSessionId newUserMessage in
  ret (GenSuspendedStart stream effectiveSessionId newUserMessage).

(** The [catch] block of [getStream]. *)
Definition getStream_catch (query : string) (error : Error) : M Generator :=
  log LevelError "Error processing stream query"
    [("error", LStr (message error)); ("query", LStr query)] ;;;
  throw {| message := "ストリーム処理に失敗しました: " +:+ message error |}.

(** [async getStream(query, sessionId?)] *)
Definition getStream (query : string) (sessionId : option string)
  : M Generator :=
  ensureInitialized ;;;
  try_catch (getStream_try query sessionId) (getStream_catch query).

End Agent.

(** [monitorStream], from the point where the loop asks the model stream for
    its next chunk up to the next suspension or the end of the generator.  A
    thrown error closes the generator. *)
Definition monitor_resume (stream : Stream) (sessionId : string)
    (acc : string * option BaseMessage) : M (IteratorResult * Generator) :=
  match stream with
  | SYield chunk rest =>
      ret (IterValue chunk, GenSuspendedYield chunk rest sessionId acc)
  | SDone =>
      match snd acc with
      | Some m => sessionMemory_addMessage sessionId m
      | None => ret tt
      end ;;;
      log LevelInfo "Stream completed and messages saved"
        [("sessionId", LStr sessionId);
         ("responseLength", LNum (js_length (fst acc)))] ;;;
      ret (IterDone, GenClosed)
  | SThrow error =>
      log LevelError "Stream monitoring error"
        [("error", LStr (message error)); ("sessionId", LStr sessionId)] ;;;
      throw error
  end.

(** [next()] on the generator. *)
Definition gen_next (g : Generator) : M (IteratorResult * Generator) :=
  match g with
  | GenSuspendedStart stream sessionId userMessage =>
      sessionMemory_addMessage sessionId userMessage ;;;
      monitor_resume stream sessionId ("", None)
  | GenSuspendedYield chunk rest sessionId acc =>
      monitor_resume rest sessionId (accumulate chunk acc)
  | GenClosed => ret (IterDone, GenClosed)
  end.

(** [return()] on the generator, as issued when a [for await] consumer
    leaves its loop early: the body has no [finally], so the generator just
    finishes. *)
Definition gen_return (g : Generator) : M (IteratorResult * Generator) :=
  ret (IterDone, GenClosed).

(** A consumer that takes at most [k] chunks and then leaves its loop. *)
Fixpoint consume (k : nat) (g : Generator) : M (list Chunk) :=
  match k with
  | O => gen_return g ;;; ret []
  | S k' =>
      let* step := gen_next g in
      match fst step with
      | IterValue chunk =>
          let* chunks := consume k' (snd step) in ret (chunk :: chunks)
      | IterDone => ret []
      end
  end.

(** The turns stored for a session in a world. *)
Definition history (sessionId : string) (w : World) : list BaseMessage :=
  stored sessionId (sessionMemory w).

(** The message of the last chunk that carried string content, if any: the
    value of [aiMessage] when the loop ends. *)
Definition last_text_message (s : Stream) : option BaseMessage :=
  snd (fold_left (fun acc chunk => accumulate chunk acc) (stream_chunks s) ("", None)).

(** The concatenated string content of the chunks: the value of
    [fullResponse] when the loop ends. *)
Definition full_text (s : Stream) : string :=
  fst (fold_left (fun acc chunk => accumulate chunk acc) (stream_chunks s) ("", None)).


(** ** Vocabulary of the statements *)

(** [h'] has every array and every message object of [h], unchanged. *)
Definition heap_preserved (h h' : ArrayHeap.heap) : Prop :=
  ArrayHeap.objects h' = ArrayHeap.objects h
  /\ forall (l : ArrayHeap.ref) (a : list ArrayHeap.ref),
       ArrayHeap.arrays h !! l = Some a -> ArrayHeap.arrays h' !! l = Some a.

Definition turn (role : MessageType) (text : string) : BaseMessage :=
  {| _getType := role; content := ContentString text |}.

(** The six turns [system, u1, a1, u2, a2, u3] of the spec's example. *)
Definition example_turns : list BaseMessage :=
  [turn MSystem "system"; turn MHuman "u1"; turn MAi "a1";
   turn MHuman "u2"; turn MAi "a2"; turn MHuman "u3"].

(** Eleven turns whose system turn lies among the last ten. *)
Definition late_system_turns : list BaseMessage :=
  [turn MHuman "u0"; turn MSystem "system"; turn MAi "a0";
   turn MHuman "u1"; turn MAi "a1"; turn MHuman "u2"; turn MAi "a2";
   turn MHuman "u3"; turn MAi "a3"; turn MHuman "u4"; turn MAi "a4"].

(** A heap holding [late_system_turns] as message objects and, at
    reference 0, the array of all of them. *)
Definition example_heap : ArrayHeap.heap :=
  {| ArrayHeap.arrays := [seq 0 (length late_system_turns)];
     ArrayHeap.objects := late_system_turns |}.

(** The two worlds agree on the stored turns of every session. *)
Definition same_histories (w w' : World) : Prop :=
  forall s : string, history s w' = history s w.

(** The agent is initialised, or its initialisation will succeed. *)
Definition can_start (env : Env) (w : World) : Prop :=
  isInitialized w = true
  \/ (initChatModel env = Ok tt /\ createAgent env = Ok tt).

(** The message list a request hands to the model. *)
Definition request_messages (env : Env) (query : string)
    (sessionId : option string) (w : World) : list BaseMessage :=
  trimMessages (history (effectiveSessionId env sessionId) w)
  ++ [HumanMessage query].

(** [thrown] is a new error whose message is the cause's message behind a
    non-empty prefix. *)
Definition wraps (thrown cause : Error) : Prop :=
  exists prefix : string,
    prefix <> ""%string /\ message thrown = prefix +:+ message cause.

Definition is_digit (c : ascii) : bool :=
  (48 <=? nat_of_ascii c) && (nat_of_ascii c <=? 57).

Definition is_lower (c : ascii) : bool :=
  (97 <=? nat_of_ascii c) && (nat_of_ascii c <=? 122).

Definition is_alnum (c : ascii) : bool := is_digit c || is_lower c.

(** The start-of-request log entry, with the query cut to 100 code units. *)
Definition request_entry (infoText query sessionId : string) : LogEntry :=
  {| level := LevelInfo; text := infoText;
     meta := [("query", LStr (js_take 100 query +:+ "..."));
              ("sessionId", LStr sessionId)] |}.

(** The entry [processQuery] logs when it catches [cause]. *)
Definition failure_entry (query : string) (cause : Error) : LogEntry :=
  {| level := LevelError; text := "クエリ処理中にエラーが発生しました";
     meta := [("error", LStr (message cause)); ("query", LStr query)] |}.

(** Every query recorded in the entry is at most 100 code units long, the
    three of a ["..."] mark aside. *)
Definition query_truncated (entry : LogEntry) : Prop :=
  forall v : string,
    In ("query"%string, LStr v) (meta entry) -> js_length v <= 103.

(** How a request can fail once the agent is initialised: the model
    invocation throws, or the stream it returns throws while iterated. *)
Definition request_fails (env : Env) (messages : list BaseMessage)
    (cause : Error) : Prop :=
  agent_stream env messages = Throw cause
  \/ exists s, agent_stream env messages = Ok s /\ stream_error s = Some cause.

Definition example_config : ModelConfig :=
  {| name := "gpt-oss:20b"; provider := "ollama";
     baseUrl := "http://localhost:11434/v1" |}.

Definition example_world : World :=
  {| modelConfig := example_config; isInitialized := true;
     sessionMemory := {| sessions := {[ "s1"%string := [turn MHuman "earlier"] ]} |};
     logged := [] |}.

Definition text_chunk (s : string) : Chunk :=
  ChunkArray [ElemMessage (turn MAi s); ElemOther].

(** An environment whose model answers every request with [s]. *)
Definition env_streaming (s : Stream) : Env :=
  {| initChatModel := Ok tt; createAgent := Ok tt;
     agent_stream := fun _ => Ok s;
     Date_now := 1700000000000%N;
     Math_random := exact_radix36 30 1 2 |}.

(** An environment whose model invocation throws [e]. *)
Definition env_refusing (e : Error) : Env :=
  {| initChatModel := Ok tt; createAgent := Ok tt;
     agent_stream := fun _ => Throw e;
     Date_now := 1700000000000%N;
     Math_random := exact_radix36 30 1 2 |}.

Definition boom : Error := {| message := "boom" |}.

(** A query of 120 characters. *)
Definition long_query : string :=
  string_of_list_ascii (replicate 120 "q"%char).

(** One more [next()] of a consumer that will take [k] further chunks, seen
    from inside the generator: the loop of [monitorStream] resumes on
    [stream] with the accumulator [acc]. *)
Definition drain (k : nat) (stream : Stream) (sessionId : string)
    (acc : string * option BaseMessage) : M (list Chunk) :=
  bind (monitor_resume stream sessionId acc)
    (fun step =>
       match fst step with
       | IterValue chunk =>
           bind (consume k (snd step)) (fun chunks => ret (chunk :: chunks))
       | IterDone => ret []
       end).

(** The registry after the assistant turn, if there is one, is stored. *)
Definition commit_assistant (sessionId : string) (ai : option BaseMessage)
    (mem : MemorySaverManager) : MemorySaverManager :=
  match ai with
  | Some m => addMessage sessionId m mem
  | None => mem
  end.

(** The entry [monitorStream] logs when the model stream throws. *)
Definition monitor_entry (sessionId : string) (cause : Error) : LogEntry :=
  {| level := LevelError; text := "Stream monitoring error";
     meta := [("error", LStr (message cause)); ("sessionId", LStr sessionId)] |}.

(** A stream of two text chunks that ends normally. *)
Definition hello_stream : Stream :=
  SYield (text_chunk "Hel") (SYield (text_chunk "lo") SDone).

(** A stream whose only chunk carries content blocks, not a string. *)
Definition blocks_stream : Stream :=
  SYield (ChunkArray [ElemMessage {| _getType := MAi;
                                     content := ContentComplex ["tool_use"%string] |};
                      ElemOther])
    SDone.

(** A stream that throws after its first chunk. *)
Definition broken_stream : Stream :=
  SYield (text_chunk "Hel") (SThrow boom).

(** ** Further operations and vocabulary *)

(** [isReady()] *)
Definition isReady (w : World) : bool := isInitialized w.

(** [getModelName()] *)
Definition getModelName (w : World) : string := name (modelConfig w).

(** Twelve turns of user and assistant, no system turn. *)
Definition plain_turns : list BaseMessage :=
  [turn MHuman "u0"; turn MAi "a0"; turn MHuman "u1"; turn MAi "a1";
   turn MHuman "u2"; turn MAi "a2"; turn MHuman "u3"; turn MAi "a3";
   turn MHuman "u4"; turn MAi "a4"; turn MHuman "u5"; turn MAi "a5"].

(** From [w] to [w'] the configuration is the same, a ready agent stays
    ready, the log has only grown and no stored turn has changed. *)
Definition world_logs (w w' : World) : Prop :=
  modelConfig w' = modelConfig w
  /\ (isInitialized w = true -> isInitialized w' = true)
  /\ logged w `prefix_of` logged w'
  /\ same_histories w w'.

(** As [world_logs], except that the session [sessionId] may have had turns
    appended to its stored ones. *)
Definition world_grows (sessionId : string) (w w' : World) : Prop :=
  modelConfig w' = modelConfig w
  /\ (isInitialized w = true -> isInitialized w' = true)
  /\ logged w `prefix_of` logged w'
  /\ history sessionId w `prefix_of` history sessionId w'
  /\ forall s, s <> sessionId -> history s w' = history s w.

(** Whatever its outcome, [m] relates the world it starts in to the world
    it ends in by [R]. *)
Definition keeps {A} (R : World -> World -> Prop) (m : M A) : Prop :=
  forall w, R w (snd (m w)).

(** The session a suspended generator writes to. *)
Definition gen_session (sessionId : string) (g : Generator) : Prop :=
  match g with
  | GenSuspendedStart _ s _ => s = sessionId
  | GenSuspendedYield _ _ s _ => s = sessionId
  | GenClosed => True
  end.

(** The initialisation fails with [e]: at [initChatModel], or after it at
    [createAgent]. *)
Definition init_fails (env : Env) (e : Error) : Prop :=
  initChatModel env = Throw e
  \/ (initChatModel env = Ok tt /\ createAgent env = Throw e).

(** The entry [initializeAgent] logs when it catches [e]. *)
Definition init_failure_entry (e : Error) : LogEntry :=
  {| level := LevelError; text := "Failed to initialize Legal Agent";
     meta := [("error", LStr (message e))] |}.

(** The entries [initializeAgent] logs on its way to success. *)
Definition init_entries (cfg : ModelConfig) : list LogEntry :=
  [{| level := LevelInfo; text := "Initializing LLM...";
      meta := [("model", LStr (name cfg)); ("provider", LStr (provider cfg));
               ("baseUrl", LStr (baseUrl cfg))] |};
   {| level := LevelInfo; text := "LLM initialized, creating agent...";
      meta := [] |};
   {| level := LevelInfo;
      text := "Legal Agent initialized successfully with model: " +:+ name cfg;
      meta := [] |}].

(** The entry [processQuery] logs before it returns [response]. *)
Definition response_entry (response sessionId : string) (messageCount : nat)
  : LogEntry :=
  {| level := LevelInfo; text := "クエリが正常に処理されました";
     meta := [("responseLength", LNum (js_length response));
              ("sessionId", LStr sessionId);
              ("messageCount", LNum messageCount)] |}.

(** An environment like [env] whose model is [model]. *)
Definition with_model (env : Env) (model : list BaseMessage -> Result Stream)
  : Env :=
  {| initChatModel := initChatModel env; createAgent := createAgent env;
     agent_stream := model;
     Date_now := Date_now env; Math_random := Math_random env |}.

(** A world whose agent is not initialised yet. *)
Definition fresh_world : World :=
  {| modelConfig := example_config; isInitialized := false;
     sessionMemory := {| sessions := ∅ |}; logged := [] |}.

(** An environment whose model cannot be created. *)
Definition env_unreachable (e : Error) : Env :=
  {| initChatModel := Throw e; createAgent := Ok tt;
     agent_stream := fun _ => Ok SDone;
     Date_now := 1700000000000%N;
     Math_random := exact_radix36 30 1 2 |}.

(** A model that answers a list of two turns with [hello_stream] and
    refuses every other list. *)
Definition picky_model (messages : list BaseMessage) : Result Stream :=
  if length messages =? 2 then Ok hello_stream else Throw boom.

(** The entry [monitorStream] logs when the model stream has ended. *)
Definition completed_entry (sessionId response : string) : LogEntry :=
  {| level := LevelInfo; text := "Stream completed and messages saved";
     meta := [("sessionId", LStr sessionId);
              ("responseLength", LNum (js_length response))] |}.

(** The string contents of the chunks that pass the loop's guard, in order
    of arrival. *)
Definition texts_of (chunks : list Chunk) : list string :=
  omap (fun chunk => fst <$> chunk_text chunk) chunks.

(** The messages of the chunks that pass the loop's guard, in order of
    arrival. *)
Definition messages_of (chunks : list Chunk) : list BaseMessage :=
  omap (fun chunk => snd <$> chunk_text chunk) chunks.

(** Concatenation, first to last. *)
Definition concat_texts (texts : list string) : string :=
  foldr String.append ""%string texts.

(** [s] without its first [n] characters. *)
Fixpoint string_drop (n : nat) (s : string) : string :=
  match n, s with
  | O, _ => s
  | S n', String _ s' => string_drop n' s'
  | S _, EmptyString => EmptyString
  end.

(** [s.replace(pattern, replacement)] for a string pattern and a replacement
    without [$] patterns: the first occurrence of [pattern] in [s], if there
    is one, is replaced. *)
Fixpoint replace_first (pattern replacement s : string) : string :=
  if String.prefix pattern s
  then replacement +:+ string_drop (String.length pattern) s
  else match s with
       | EmptyString => EmptyString
       | String c s' => String c (replace_first pattern replacement s')
       end.

(** The value [initializeAgent] assigns to [process.env.OLLAMA_BASE_URL]:
    [this.modelConfig.baseUrl.replace('/v1', '')] when the provider is
    ['ollama'], no assignment otherwise. *)
Definition ollamaBaseUrl (cfg : ModelConfig) : option string :=
  if String.eqb (provider cfg) "ollama"
  then Some (replace_first "/v1" "" (baseUrl cfg))
  else None.

(** ** The demonstration script

    The script of [src/unnamed/part_000]: [main] initialises a model,
    creates an agent, asks one fixed question and prints the streamed
    answer.  What reaches the console and the standard output is recorded in
    order. *)
Module Demo.

Inductive Output :=
  | ConsoleLog (line : string)
  | StdoutWrite (text : string)
  | ConsoleError (e : Error).

(** What the environment answers during the run of [main]. *)
Record Env := {
  initChatModel : Result unit;
  createAgent : Result unit;
  agent_stream : Result Stream
}.

(** Computations that write output and may throw. *)
Definition D (A : Type) : Type := list Output -> Result A * list Output.

Definition dret {A} (a : A) : D A := fun out => (Ok a, out).

Definition dbind {A B} (m : D A) (k : A -> D B) : D B :=
  fun out =>
    match m out with
    | (Ok a, out') => k a out'
    | (Throw e, out') => (Throw e, out')
    end.

Definition dlift {A} (r : Result A) : D A := fun out => (r, out).

Definition dtry {A} (m : D A) (handler : Error -> D A) : D A :=
  fun out =>
    match m out with
    | (Ok a, out') => (Ok a, out')
    | (Throw e, out') => handler e out'
    end.

Definition emit (o : Output) : D unit := fun out => (Ok tt, out ++ [o]).

(** The [for await] loop of [main]: each chunk that passes the guard is
    written to the standard output. *)
Fixpoint print_stream (stream : Stream) : D unit :=
  match stream with
  | SDone => dret tt
  | SYield chunk rest =>
      dbind
        match chunk_text chunk with
        | Some (fragment, _) => emit (StdoutWrite fragment)
        | None => dret tt
        end
        (fun _ => print_stream rest)
  | SThrow e => dlift (Throw e)
  end.

(** [async function main()] *)
Definition main (env : Env) : D unit :=
  dtry
    (dbind (emit (ConsoleLog "Initializing LLM...")) (fun _ =>
     dbind (dlift (initChatModel env)) (fun _ =>
     dbind (emit (ConsoleLog "LLM initialized, creating agent...")) (fun _ =>
     dbind (dlift (createAgent env)) (fun _ =>
     dbind (emit (ConsoleLog "Agent created, invoking...")) (fun _ =>
     dbind (emit (ConsoleLog "Agent Response:")) (fun _ =>
     dbind (dlift (agent_stream env)) (fun stream =>
     dbind (print_stream stream) (fun _ =>
     emit (ConsoleLog ""))))))))))
    (fun error => emit (ConsoleError error)).

(** The fragments written to the standard output, in order. *)
Definition written (out : list Output) : list string :=
  omap (fun o => match o with StdoutWrite t => Some t | _ => None end) out.

End Demo.

(** An environment of the demonstration script whose model answers with
    [s]. *)
Definition demo_streaming (s : Stream) : Demo.Env :=
  {| Demo.initChatModel := Ok tt; Demo.createAgent := Ok tt;
     Demo.agent_stream := Ok s |}.

(** The entry [getStream] logs when it catches [cause]. *)
Definition stream_failure_entry (query : string) (cause : Error) : LogEntry :=
  {| level := LevelError; text := "Error processing stream query";
     meta := [("error", LStr (message cause)); ("query", LStr query)] |}.

(** What the store holds after the user turn of a completed request:
    nothing when no chunk of [s] carried string content, one turn, the
    assistant turn, otherwise. *)
Definition assistant_part (s : Stream) (tail : list BaseMessage) : Prop :=
  (Forall (fun chunk => chunk_text chunk = None) (stream_chunks s) -> tail = [])
  /\ (Exists (fun chunk => chunk_text chunk <> None) (stream_chunks s) ->
      exists ai, tail = [ai]).

(** A stream that delivers a Japanese answer in one chunk. *)
Definition japanese_stream : Stream :=
  SYield (text_chunk "窃盗罪") SDone.

(** * Properties *)

(** ** The trimmer *)

Lemma trimMessagesWith_short (maxCount : nat) (messages : list BaseMessage) :
  length messages <= maxCount -> trimMessagesWith maxCount messages = messages.
Proof.
  intros Hlen. unfold trimMessagesWith.
  destruct (Nat.leb_spec (length messages) maxCount) as [_ | Hgt]; [done | lia].
Qed.

Lemma trimMessagesWith_long (maxCount : nat) (messages : list BaseMessage) :
  maxCount < length messages ->
  trimMessagesWith maxCount messages
  = List.filter is_system messages ++ slice_from_end maxCount messages.
Proof.
  intros Hlen. unfold trimMessagesWith.
  destruct (Nat.leb_spec (length messages) maxCount) as [Hle | _]; [lia | done].
Qed.

Lemma slice_from_end_length {A} (n : nat) (l : list A) :
  0 < n -> n <= length l -> length (slice_from_end n l) = n.
Proof.
  intros Hpos Hle. destruct n as [| n]; [lia |].
  cbn [slice_from_end]. rewrite length_drop. lia.
Qed.

Lemma filter_system_spec (turns : list BaseMessage) (t : BaseMessage) :
  In t (List.filter is_system turns) <-> In t turns /\ _getType t = MSystem.
Proof.
  rewrite filter_In. unfold is_system. by rewrite bool_decide_eq_true.
Qed.

(** C3: a list of at most [maxCount] turns is returned as it is. *)
Theorem trim_identity (maxCount : nat) (turns : list BaseMessage) :
  length turns <= maxCount -> trimMessagesWith maxCount turns = turns.
Proof. apply trimMessagesWith_short. Qed.

Lemma trim_identity_witness :
  trimMessagesWith maxContextMessages example_turns = example_turns.
Proof. apply (trim_identity maxContextMessages example_turns). simpl. unfold maxContextMessages. lia. Defined.

(** C1, as amended: beyond ten turns [trimMessages] returns the system turns,
    in their order, followed by the last ten turns of the whole list, and a
    system turn among those last ten occurs at least twice in the result.
    For [system, u1, a1, u2, a2, u3] and a bound of 4 the result is
    [system, a1, u2, a2, u3], of length 5, and the system turn occurs in it
    once, because it is not among the last four turns. *)
Theorem trim_long_system_then_recent :
  (forall turns : list BaseMessage,
     maxContextMessages < length turns ->
     trimMessages turns
     = List.filter is_system turns
       ++ drop (length turns - maxContextMessages) turns
     /\ forall t : BaseMessage,
          _getType t = MSystem ->
          In t (drop (length turns - maxContextMessages) turns) ->
          2 <= count_occ BaseMessage_eq_dec (trimMessages turns) t)
  /\ trimMessagesWith 4 example_turns
     = [turn MSystem "system"; turn MAi "a1"; turn MHuman "u2";
        turn MAi "a2"; turn MHuman "u3"]
  /\ length (trimMessagesWith 4 example_turns) = 5
  /\ count_occ BaseMessage_eq_dec (trimMessagesWith 4 example_turns)
       (turn MSystem "system") = 1.
Proof.
  split; [| by vm_compute].
  intros turns Hlen.
  assert (Heq : trimMessages turns
                = List.filter is_system turns
                  ++ drop (length turns - maxContextMessages) turns).
  { unfold trimMessages. by rewrite trimMessagesWith_long. }
  split; [exact Heq |].
  intros t Hsys Hrecent. rewrite Heq, count_occ_app.
  assert (Hin : In t turns).
  { apply list_elem_of_In.
    apply (subseteq_drop (length turns - maxContextMessages) turns).
    by apply list_elem_of_In. }
  assert (0 < count_occ BaseMessage_eq_dec (List.filter is_system turns) t).
  { apply count_occ_In, filter_system_spec. done. }
  assert (0 < count_occ BaseMessage_eq_dec
                (drop (length turns - maxContextMessages) turns) t).
  { by apply count_occ_In. }
  lia.
Qed.

Lemma trim_long_system_then_recent_witness :
  trimMessages late_system_turns
  = [turn MSystem "system"] ++ drop 1 late_system_turns
  /\ 2 <= count_occ BaseMessage_eq_dec (trimMessages late_system_turns)
            (turn MSystem "system").
Proof.
  destruct (proj1 trim_long_system_then_recent late_system_turns) as [Heq Hdup].
  - vm_compute. lia.
  - split; [exact Heq |]. apply Hdup; [reflexivity |]. vm_compute. tauto.
Defined.

(** The spec's example claims that the system turn of
    [system, u1, a1, u2, a2, u3] occurs twice after trimming to 4. *)
Lemma trim_example_system_twice_counterexample :
  ~ (trimMessagesWith 4 example_turns
     = [turn MSystem "system"; turn MAi "a1"; turn MHuman "u2";
        turn MAi "a2"; turn MHuman "u3"]
     /\ count_occ BaseMessage_eq_dec (trimMessagesWith 4 example_turns)
          (turn MSystem "system") = 2
     /\ length (trimMessagesWith 4 example_turns) = 5).
Proof. intros (_ & Hcount & _). vm_compute in Hcount. discriminate. Qed.

(** ** No write to the input array *)

Lemma heap_preserved_refl (h : ArrayHeap.heap) : heap_preserved h h.
Proof. by split. Qed.

Lemma heap_preserved_trans (h1 h2 h3 : ArrayHeap.heap) :
  heap_preserved h1 h2 -> heap_preserved h2 h3 -> heap_preserved h1 h3.
Proof.
  intros [Ho12 Ha12] [Ho23 Ha23]. split; [congruence | eauto].
Qed.

Lemma alloc_spec (a : list ArrayHeap.ref) (h h' : ArrayHeap.heap)
    (l : ArrayHeap.ref) :
  ArrayHeap.alloc a h = (l, h') ->
  heap_preserved h h' /\ ArrayHeap.arrays h' !! l = Some a.
Proof.
  unfold ArrayHeap.alloc. intros [= <- <-]. split.
  - split; [done |]. intros l b Hl. cbn. by apply lookup_app_l_Some.
  - cbn. by rewrite list_lookup_middle.
Qed.

Lemma resolve_preserved (h h' : ArrayHeap.heap) (a : list ArrayHeap.ref) :
  ArrayHeap.objects h' = ArrayHeap.objects h ->
  ArrayHeap.resolve h' a = ArrayHeap.resolve h a.
Proof.
  intros Hobj. induction a as [| r a IH]; [done |].
  cbn. by rewrite Hobj, IH.
Qed.

Lemma resolve_app (h : ArrayHeap.heap) (a b : list ArrayHeap.ref)
    (ms ns : list BaseMessage) :
  ArrayHeap.resolve h a = Some ms -> ArrayHeap.resolve h b = Some ns ->
  ArrayHeap.resolve h (a ++ b) = Some (ms ++ ns).
Proof.
  revert ms. induction a as [| r a IH]; intros ms Ha Hb.
  - by injection Ha as <-.
  - cbn in Ha |- *. destruct (ArrayHeap.objects h !! r) as [m |]; [| done].
    destruct (ArrayHeap.resolve h a) as [ms' |]; [| done].
    injection Ha as <-. by rewrite (IH ms' eq_refl Hb).
Qed.

Lemma resolve_drop (h : ArrayHeap.heap) (k : nat) (a : list ArrayHeap.ref)
    (ms : list BaseMessage) :
  ArrayHeap.resolve h a = Some ms ->
  ArrayHeap.resolve h (drop k a) = Some (drop k ms).
Proof.
  revert a ms. induction k as [| k IH]; intros a ms Ha; [done |].
  destruct a as [| r a].
  - by injection Ha as <-.
  - cbn in Ha. destruct (ArrayHeap.objects h !! r) as [m |]; [| done].
    destruct (ArrayHeap.resolve h a) as [ms' |] eqn:Hms'; [| done].
    injection Ha as <-. cbn. by apply IH.
Qed.

Lemma resolve_length (h : ArrayHeap.heap) (a : list ArrayHeap.ref)
    (ms : list BaseMessage) :
  ArrayHeap.resolve h a = Some ms -> length ms = length a.
Proof.
  revert ms. induction a as [| r a IH]; intros ms Ha.
  - by injection Ha as <-.
  - cbn in Ha. destruct (ArrayHeap.objects h !! r) as [m |]; [| done].
    destruct (ArrayHeap.resolve h a) as [ms' |]; [| done].
    injection Ha as <-. cbn. by rewrite (IH ms').
Qed.

Lemma resolve_slice_from_end (h : ArrayHeap.heap) (n : nat)
    (a : list ArrayHeap.ref) (ms : list BaseMessage) :
  ArrayHeap.resolve h a = Some ms ->
  ArrayHeap.resolve h (slice_from_end n a) = Some (slice_from_end n ms).
Proof.
  intros Ha. destruct n as [| n]; [done |]. cbn [slice_from_end].
  rewrite (resolve_length h a ms Ha). by apply resolve_drop.
Qed.

(** On a resolvable array the reference-level filter succeeds and selects
    the references of the system messages. *)
Lemma filter_system_resolve (h : ArrayHeap.heap) (a : list ArrayHeap.ref)
    (ms : list BaseMessage) :
  ArrayHeap.resolve h a = Some ms ->
  exists sys, ArrayHeap.filter_system h a = Some sys
              /\ ArrayHeap.resolve h sys = Some (List.filter is_system ms).
Proof.
  revert ms. induction a as [| r a IH]; intros ms Ha.
  - injection Ha as <-. by exists [].
  - cbn in Ha |- *. destruct (ArrayHeap.objects h !! r) as [m |] eqn:Hr; [| done].
    destruct (ArrayHeap.resolve h a) as [ms' |]; [| done].
    injection Ha as <-. destruct (IH ms' eq_refl) as (sys & -> & Hsys).
    cbn. destruct (is_system m).
    + exists (r :: sys). split; [done |]. cbn. by rewrite Hr, Hsys.
    + by exists sys.
Qed.

Lemma trimMessagesWith_heap (maxCount : nat) (h : ArrayHeap.heap)
    (messages : ArrayHeap.ref) (a : list ArrayHeap.ref)
    (ms : list BaseMessage) :
  ArrayHeap.arrays h !! messages = Some a ->
  ArrayHeap.resolve h a = Some ms ->
  exists out h',
    ArrayHeap.trimMessagesWith maxCount messages h = Some (out, h')
    /\ heap_preserved h h'
    /\ ArrayHeap.contents h' out = Some (trimMessagesWith maxCount ms).
Proof.
  intros Hl Ha. unfold ArrayHeap.trimMessagesWith, trimMessagesWith.
  rewrite Hl, (resolve_length h a ms Ha).
  destruct (length a <=? maxCount).
  - exists messages, h. split_and!; [done | apply heap_preserved_refl |].
    unfold ArrayHeap.contents. by rewrite Hl.
  - destruct (filter_system_resolve h a ms Ha) as (sys & -> & Hsys).
    destruct (ArrayHeap.alloc sys h) as [systemMessages h1] eqn:E1.
    destruct (ArrayHeap.alloc (slice_from_end maxCount a) h1)
      as [recentMessages h2] eqn:E2.
    destruct (ArrayHeap.alloc (sys ++ slice_from_end maxCount a) h2)
      as [out h3] eqn:E3.
    apply alloc_spec in E1 as [P1 _], E2 as [P2 _], E3 as [P3 L3].
    assert (P : heap_preserved h h3).
    { eapply heap_preserved_trans; [| exact P3].
      eapply heap_preserved_trans; [exact P1 | exact P2]. }
    exists out, h3. split_and!; [done | done |].
    unfold ArrayHeap.contents. rewrite L3.
    rewrite (resolve_preserved h h3 _ (proj1 P)).
    apply resolve_app; [done |]. by apply resolve_slice_from_end.
Qed.

(** C10: [trimMessages] writes neither to its input array nor to any turn:
    after the call every array and every message object of the heap is what
    it was, the input array included, and the returned array holds the
    trimmed turns.  The same holds for [this.trimMessages([...stored])], the
    form in which a request trims a session's stored history. *)
Theorem trimMessages_leaves_input_unchanged (h : ArrayHeap.heap)
    (messages : ArrayHeap.ref) (turns : list BaseMessage) :
  ArrayHeap.contents h messages = Some turns ->
  (exists out h',
     ArrayHeap.trimMessages messages h = Some (out, h')
     /\ heap_preserved h h'
     /\ ArrayHeap.arrays h' !! messages = ArrayHeap.arrays h !! messages
     /\ ArrayHeap.contents h' messages = Some turns
     /\ ArrayHeap.contents h' out = Some (trimMessages turns))
  /\ (exists out h',
        ArrayHeap.trim_for_request messages h = Some (out, h')
        /\ heap_preserved h h'
        /\ ArrayHeap.arrays h' !! messages = ArrayHeap.arrays h !! messages
        /\ ArrayHeap.contents h' messages = Some turns
        /\ ArrayHeap.contents h' out = Some (trimMessages turns)).
Proof.
  unfold ArrayHeap.contents at 1.
  destruct (ArrayHeap.arrays h !! messages) as [a |] eqn:Hl; [| done].
  intros Ha.
  assert (Hkeep : forall h', heap_preserved h h' ->
            ArrayHeap.arrays h' !! messages = Some a
            /\ ArrayHeap.contents h' messages = Some turns).
  { intros h' [Hobj Harr]. pose proof (Harr _ _ Hl) as Hl'.
    split; [done |]. unfold ArrayHeap.contents.
    by rewrite Hl', (resolve_preserved h h' a Hobj). }
  split.
  - destruct (trimMessagesWith_heap maxContextMessages h messages a turns Hl Ha)
      as (out & h' & Hrun & Hpres & Hout).
    exists out, h'. destruct (Hkeep h' Hpres) as [Hl' Hc'].
    split_and!; done.
  - unfold ArrayHeap.trim_for_request, ArrayHeap.spread. rewrite Hl.
    destruct (ArrayHeap.alloc a h) as [copy h1] eqn:Halloc.
    apply alloc_spec in Halloc as [Hcopy Hcopy_l].
    assert (Ha1 : ArrayHeap.resolve h1 a = Some turns).
    { by rewrite (resolve_preserved h h1 a (proj1 Hcopy)). }
    destruct (trimMessagesWith_heap maxContextMessages h1 copy a turns Hcopy_l Ha1)
      as (out & h' & Hrun & Hpres & Hout).
    exists out, h'.
    assert (Hall : heap_preserved h h') by (by eapply heap_preserved_trans).
    destruct (Hkeep h' Hall) as [Hl' Hc']. split_and!; done.
Qed.

Lemma trimMessages_leaves_input_unchanged_witness :
  ArrayHeap.contents example_heap 0 = Some late_system_turns
  /\ exists out h',
       ArrayHeap.trimMessages 0 example_heap = Some (out, h')
       /\ ArrayHeap.contents h' 0 = Some late_system_turns
       /\ ArrayHeap.contents h' out = Some (trimMessages late_system_turns).
Proof.
  assert (H : ArrayHeap.contents example_heap 0 = Some late_system_turns)
    by reflexivity.
  split; [exact H |].
  destruct (proj1 (trimMessages_leaves_input_unchanged example_heap 0
                     late_system_turns H))
    as (out & h' & Hrun & _ & _ & Hin & Hout).
  exists out, h'. split; [exact Hrun |]. split; [exact Hin | exact Hout].
Defined.

(** ** The session registry *)

Lemma getMessages_result (sessionId : string) (mem : MemorySaverManager) :
  (getMessages sessionId mem).1 = stored sessionId mem.
Proof.
  unfold getMessages, stored. by destruct (sessions mem !! sessionId).
Qed.

Lemma getMessages_stored (sessionId s : string) (mem : MemorySaverManager) :
  stored s (getMessages sessionId mem).2 = stored s mem.
Proof.
  unfold getMessages, stored.
  destruct (sessions mem !! sessionId) as [turns |] eqn:Hs; [done |]. cbn.
  destruct (decide (sessionId = s)) as [<- | Hne].
  - by rewrite lookup_insert_eq, Hs.
  - by rewrite lookup_insert_ne.
Qed.

Lemma addMessage_stored_same (sessionId : string) (t : BaseMessage)
    (mem : MemorySaverManager) :
  stored sessionId (addMessage sessionId t mem) = stored sessionId mem ++ [t].
Proof. unfold addMessage, stored at 1. cbn. by rewrite lookup_insert_eq. Qed.

Lemma addMessage_stored_other (sessionId s : string) (t : BaseMessage)
    (mem : MemorySaverManager) :
  sessionId <> s -> stored s (addMessage sessionId t mem) = stored s mem.
Proof.
  intros Hne. unfold addMessage, stored at 1. cbn. by rewrite lookup_insert_ne.
Qed.

(** ** The loop over the model stream *)

Lemma collect_spec (s : Stream) (acc : string * option BaseMessage) :
  collect s acc
  = match stream_error s with
    | Some e => Throw e
    | None => Ok (fold_left (fun a c => accumulate c a) (stream_chunks s) acc)
    end.
Proof.
  revert acc. induction s as [| c rest IH | e]; intros acc; cbn; [done | | done].
  apply IH.
Qed.

Lemma accumulate_no_text (chunks : list Chunk)
    (acc : string * option BaseMessage) :
  Forall (fun c => chunk_text c = None) chunks ->
  fold_left (fun a c => accumulate c a) chunks acc = acc.
Proof.
  intros Hall. revert acc.
  induction Hall as [| c chunks Hc _ IH]; intros acc; [done |].
  cbn. unfold accumulate at 2. rewrite Hc. apply IH.
Qed.

(** ** Initialisation *)

Lemma ensureInitialized_ok (env : Env) (w : World) :
  can_start env w ->
  exists w0,
    ensureInitialized env w = (Ok tt, w0)
    /\ isInitialized w0 = true
    /\ sessionMemory w0 = sessionMemory w
    /\ exists entries, logged w0 = logged w ++ entries.
Proof.
  intros Hstart. unfold ensureInitialized.
  destruct (isInitialized w) eqn:Hinit.
  - exists w. split_and!; [done | done | done |]. exists []. by rewrite app_nil_r.
  - destruct Hstart as [Hready | [Hllm Hagent]]; [congruence |].
    unfold initializeAgent, try_catch, bind, read_modelConfig, lift, log,
      set_initialized. cbn. rewrite Hllm, Hagent. cbn.
    eexists. split_and!; [reflexivity | done | done |]. cbn.
    eexists. rewrite <- !app_assoc. reflexivity.
Qed.

(** A failed initialisation is rethrown as it is, before any query
    processing starts. *)
Lemma ensureInitialized_failure (env : Env) (w : World) (e : Error) :
  isInitialized w = false ->
  initChatModel env = Throw e ->
  exists w0, ensureInitialized env w = (Throw e, w0)
             /\ sessionMemory w0 = sessionMemory w.
Proof.
  intros Hinit Hllm. unfold ensureInitialized. rewrite Hinit.
  unfold initializeAgent, try_catch, bind, read_modelConfig, lift, log, throw.
  cbn. rewrite Hllm. cbn. eexists. split; [reflexivity | done].
Qed.

(** ** The head of a request *)

Lemma open_stream_spec (env : Env) (infoText query sessionId : string)
    (user : BaseMessage) (w : World) :
  exists w1,
    open_stream env infoText query sessionId user w
    = (agent_stream env (trimMessages (history sessionId w) ++ [user]), w1)
    /\ same_histories w w1
    /\ logged w1 = logged w ++ [request_entry infoText query sessionId].
Proof.
  unfold open_stream, bind, log, sessionMemory_getMessages, lift. cbn.
  rewrite getMessages_result.
  eexists. split; [reflexivity |]. split; [| done].
  intros s. unfold history. cbn. apply getMessages_stored.
Qed.

(** ** Running the monad *)

Lemma bind_ok {A B} (m : M A) (k : A -> M B) (w w' : World) (a : A) :
  m w = (Ok a, w') -> bind m k w = k a w'.
Proof. intros H. unfold bind. by rewrite H. Qed.

Lemma bind_throw {A B} (m : M A) (k : A -> M B) (w w' : World) (e : Error) :
  m w = (Throw e, w') -> bind m k w = (Throw e, w').
Proof. intros H. unfold bind. by rewrite H. Qed.

Lemma try_catch_ok {A} (m : M A) (handler : Error -> M A) (w w' : World)
    (a : A) :
  m w = (Ok a, w') -> try_catch m handler w = (Ok a, w').
Proof. intros H. unfold try_catch. by rewrite H. Qed.

Lemma try_catch_throw {A} (m : M A) (handler : Error -> M A) (w w' : World)
    (e : Error) :
  m w = (Throw e, w') -> try_catch m handler w = handler e w'.
Proof. intros H. unfold try_catch. by rewrite H. Qed.

Lemma same_histories_init (w w0 : World) :
  sessionMemory w0 = sessionMemory w -> same_histories w w0.
Proof. intros H s. unfold history. by rewrite H. Qed.

Lemma same_histories_trans (w1 w2 w3 : World) :
  same_histories w1 w2 -> same_histories w2 w3 -> same_histories w1 w3.
Proof. intros H12 H23 s. by rewrite H23, H12. Qed.

(** ** The buffered path *)

Lemma processQuery_failure (env : Env) (query : string)
    (sessionId : option string) (w : World) (cause : Error) :
  can_start env w ->
  request_fails env (request_messages env query sessionId w) cause ->
  exists w',
    processQuery env query sessionId w
    = (Throw {| message := "クエリ処理に失敗しました: " +:+ message cause |}, w')
    /\ same_histories w w'
    /\ exists entries,
         logged w' = logged w ++ entries
                     ++ [request_entry "Processing legal query with session"
                           query (effectiveSessionId env sessionId);
                         failure_entry query cause].
Proof.
  intros Hstart Hfail.
  destruct (ensureInitialized_ok env w Hstart)
    as (w0 & Hinit & _ & Hmem & entries & Hlog0).
  pose proof (same_histories_init w w0 Hmem) as Hsame0.
  destruct (open_stream_spec env "Processing legal query with session" query
              (effectiveSessionId env sessionId) (HumanMessage query) w0)
    as (w1 & Hopen & Hsame1 & Hlog1).
  rewrite (Hsame0 (effectiveSessionId env sessionId)) in Hopen.
  fold (request_messages env query sessionId w) in Hopen.
  assert (Hbody : processQuery_try env query sessionId w0 = (Throw cause, w1)).
  { unfold processQuery_try. cbn zeta.
    destruct Hfail as [Hthrow | (s & Hs & Herr)].
    - rewrite Hthrow in Hopen. by apply bind_throw.
    - rewrite Hs in Hopen. rewrite (bind_ok _ _ _ _ _ Hopen).
      apply bind_throw. unfold lift. by rewrite collect_spec, Herr. }
  unfold processQuery. rewrite (bind_ok _ _ _ _ _ Hinit).
  rewrite (try_catch_throw _ _ _ _ _ Hbody).
  unfold processQuery_catch, bind, log, throw. cbn.
  eexists. split; [reflexivity |]. split.
  - intros s. transitivity (history s w1); [done |].
    rewrite Hsame1. apply Hsame0.
  - exists entries. cbn. rewrite Hlog1, Hlog0.
    rewrite <- !app_assoc. reflexivity.
Qed.

Lemma commit_history (sessionId : string) (user : BaseMessage)
    (ai : option BaseMessage) (w : World) :
  let mem1 := addMessage sessionId user (sessionMemory w) in
  let mem2 := match ai with
              | Some m => addMessage sessionId m mem1
              | None => mem1
              end in
  stored sessionId mem2 = history sessionId w ++ user :: option_list ai
  /\ forall s, sessionId <> s -> stored s mem2 = history s w.
Proof.
  cbn zeta. unfold history. destruct ai as [m |]; cbn; split.
  - rewrite !addMessage_stored_same, <- app_assoc. done.
  - intros s Hne. by rewrite !addMessage_stored_other.
  - by rewrite addMessage_stored_same.
  - intros s Hne. by rewrite addMessage_stored_other.
Qed.

Lemma processQuery_success (env : Env) (query : string)
    (sessionId : option string) (w : World) (s : Stream) :
  can_start env w ->
  agent_stream env (request_messages env query sessionId w) = Ok s ->
  stream_error s = None ->
  exists w',
    processQuery env query sessionId w = (Ok (full_text s), w')
    /\ history (effectiveSessionId env sessionId) w'
       = history (effectiveSessionId env sessionId) w
         ++ HumanMessage query :: option_list (last_text_message s)
    /\ forall s', effectiveSessionId env sessionId <> s' ->
                  history s' w' = history s' w.
Proof.
  intros Hstart Hs Hdone.
  destruct (ensureInitialized_ok env w Hstart)
    as (w0 & Hinit & _ & Hmem & _).
  pose proof (same_histories_init w w0 Hmem) as Hsame0.
  destruct (open_stream_spec env "Processing legal query with session" query
              (effectiveSessionId env sessionId) (HumanMessage query) w0)
    as (w1 & Hopen & Hsame1 & _).
  rewrite (Hsame0 (effectiveSessionId env sessionId)) in Hopen.
  fold (request_messages env query sessionId w) in Hopen. rewrite Hs in Hopen.
  assert (Hbody : exists w',
    processQuery_try env query sessionId w0 = (Ok (full_text s), w')
    /\ forall x,
         history x w'
         = stored x
             match last_text_message s with
             | Some m =>
                 addMessage (effectiveSessionId env sessionId) m
                   (addMessage (effectiveSessionId env sessionId)
                      (HumanMessage query) (sessionMemory w1))
             | None =>
                 addMessage (effectiveSessionId env sessionId)
                   (HumanMessage query) (sessionMemory w1)
             end).
  { unfold processQuery_try. cbn zeta. rewrite (bind_ok _ _ _ _ _ Hopen).
    unfold lift at 1. unfold bind at 1. rewrite collect_spec, Hdone.
    fold (full_text s). fold (last_text_message s).
    unfold bind, sessionMemory_addMessage, sessionMemory_getMessages, log, ret.
    cbn [fst snd].
    destruct (last_text_message s) as [m |]; eexists;
      (split; [reflexivity |]); intros x; unfold history; cbn;
      apply getMessages_stored. }
  destruct Hbody as (w' & Hbody & Hhist).
  unfold processQuery. rewrite (bind_ok _ _ _ _ _ Hinit).
  rewrite (try_catch_ok _ _ _ _ _ Hbody).
  exists w'. split; [reflexivity |].
  pose proof (commit_history (effectiveSessionId env sessionId)
                (HumanMessage query) (last_text_message s) w1) as Hcommit.
  cbn zeta in Hcommit. destruct Hcommit as [Hmine Hothers].
  assert (Hw1 : forall x, history x w1 = history x w).
  { intros x. rewrite Hsame1. apply Hsame0. }
  rewrite !Hhist. split.
  - rewrite Hmine. by rewrite Hw1.
  - intros s' Hne. rewrite Hhist, (Hothers s' Hne). apply Hw1.
Qed.

(** ** The streaming path *)

Lemma consume_start (k : nat) (stream : Stream) (sessionId : string)
    (user : BaseMessage) (w : World) :
  consume (S k) (GenSuspendedStart stream sessionId user) w
  = drain k stream sessionId (""%string, None)
      (with_memory (addMessage sessionId user (sessionMemory w)) w).
Proof. reflexivity. Qed.

Lemma consume_resume (k : nat) (chunk : Chunk) (rest : Stream)
    (sessionId : string) (acc : string * option BaseMessage) (w : World) :
  consume (S k) (GenSuspendedYield chunk rest sessionId acc) w
  = drain k rest sessionId (accumulate chunk acc) w.
Proof. reflexivity. Qed.

Lemma drain_yield (k : nat) (chunk : Chunk) (rest : Stream)
    (sessionId : string) (acc : string * option BaseMessage) (w : World) :
  drain k (SYield chunk rest) sessionId acc w
  = bind (consume k (GenSuspendedYield chunk rest sessionId acc))
      (fun chunks => ret (chunk :: chunks)) w.
Proof. reflexivity. Qed.

(** A consumer that leaves while chunks remain has changed nothing since
    the generator was started. *)
Lemma drain_partial (stream : Stream) :
  forall (k : nat) (sessionId : string) (acc : string * option BaseMessage)
         (w : World),
    S k <= length (stream_chunks stream) ->
    drain k stream sessionId acc w = (Ok (take (S k) (stream_chunks stream)), w).
Proof.
  induction stream as [| chunk rest IH | e]; intros k sessionId acc w Hk;
    cbn in Hk; [lia | | lia].
  rewrite drain_yield. destruct k as [| k].
  - reflexivity.
  - unfold bind. rewrite consume_resume.
    rewrite IH by lia. reflexivity.
Qed.

(** A consumer that iterates to the end of a stream that ends normally
    receives every chunk, and the assistant turn is then stored. *)
Lemma drain_done (stream : Stream) :
  forall (k : nat) (sessionId : string) (acc : string * option BaseMessage)
         (w : World),
    stream_error stream = None ->
    length (stream_chunks stream) <= k ->
    exists w',
      drain k stream sessionId acc w = (Ok (stream_chunks stream), w')
      /\ sessionMemory w'
         = commit_assistant sessionId
             (snd (fold_left (fun a c => accumulate c a)
                     (stream_chunks stream) acc))
             (sessionMemory w).
Proof.
  induction stream as [| chunk rest IH | e]; intros k sessionId acc w Herr Hk;
    cbn in Herr, Hk; [| | done].
  - unfold drain, monitor_resume, bind, sessionMemory_addMessage, log, ret.
    cbn. destruct (snd acc) as [m |]; eexists; (split; [reflexivity | done]).
  - rewrite drain_yield. destruct k as [| k]; [lia |].
    unfold bind. rewrite consume_resume.
    destruct (IH k sessionId (accumulate chunk acc) w Herr) as (w' & -> & Hmem);
      [lia |].
    exists w'. split; [reflexivity | exact Hmem].
Qed.

(** A consumer that iterates into the failure of the model stream receives
    that very error; nothing is stored on the way. *)
Lemma drain_failure (stream : Stream) :
  forall (k : nat) (sessionId : string) (acc : string * option BaseMessage)
         (w : World) (cause : Error),
    stream_error stream = Some cause ->
    length (stream_chunks stream) <= k ->
    exists w',
      drain k stream sessionId acc w = (Throw cause, w')
      /\ sessionMemory w' = sessionMemory w
      /\ logged w' = logged w ++ [monitor_entry sessionId cause].
Proof.
  induction stream as [| chunk rest IH | e];
    intros k sessionId acc w cause Herr Hk; cbn in Herr, Hk; [done | |].
  - rewrite drain_yield. destruct k as [| k]; [lia |].
    unfold bind. rewrite consume_resume.
    destruct (IH k sessionId (accumulate chunk acc) w cause Herr)
      as (w' & -> & Hmem & Hlog); [lia |].
    exists w'. split; [reflexivity | done].
  - injection Herr as ->.
    unfold drain, monitor_resume, bind, log, throw. cbn.
    eexists. split; [reflexivity | done].
Qed.

Lemma getStream_ok (env : Env) (query : string) (sessionId : option string)
    (w : World) (s : Stream) :
  can_start env w ->
  agent_stream env (request_messages env query sessionId w) = Ok s ->
  exists w1,
    getStream env query sessionId w
    = (Ok (GenSuspendedStart s (effectiveSessionId env sessionId)
             (HumanMessage query)), w1)
    /\ same_histories w w1.
Proof.
  intros Hstart Hs.
  destruct (ensureInitialized_ok env w Hstart)
    as (w0 & Hinit & _ & Hmem & _).
  pose proof (same_histories_init w w0 Hmem) as Hsame0.
  destruct (open_stream_spec env "Processing legal query stream with session"
              query (effectiveSessionId env sessionId) (HumanMessage query) w0)
    as (w1 & Hopen & Hsame1 & _).
  rewrite (Hsame0 (effectiveSessionId env sessionId)) in Hopen.
  fold (request_messages env query sessionId w) in Hopen. rewrite Hs in Hopen.
  exists w1. split; [| by eapply same_histories_trans].
  unfold getStream. rewrite (bind_ok _ _ _ _ _ Hinit).
  apply try_catch_ok. unfold getStream_try. cbn zeta.
  by rewrite (bind_ok _ _ _ _ _ Hopen).
Qed.

Lemma getStream_failure (env : Env) (query : string)
    (sessionId : option string) (w : World) (cause : Error) :
  can_start env w ->
  agent_stream env (request_messages env query sessionId w) = Throw cause ->
  exists w',
    getStream env query sessionId w
    = (Throw {| message := "ストリーム処理に失敗しました: " +:+ message cause |}, w')
    /\ same_histories w w'.
Proof.
  intros Hstart Hs.
  destruct (ensureInitialized_ok env w Hstart)
    as (w0 & Hinit & _ & Hmem & _).
  pose proof (same_histories_init w w0 Hmem) as Hsame0.
  destruct (open_stream_spec env "Processing legal query stream with session"
              query (effectiveSessionId env sessionId) (HumanMessage query) w0)
    as (w1 & Hopen & Hsame1 & _).
  rewrite (Hsame0 (effectiveSessionId env sessionId)) in Hopen.
  fold (request_messages env query sessionId w) in Hopen. rewrite Hs in Hopen.
  assert (Hbody : getStream_try env query sessionId w0 = (Throw cause, w1)).
  { unfold getStream_try. cbn zeta. by apply bind_throw. }
  unfold getStream. rewrite (bind_ok _ _ _ _ _ Hinit).
  rewrite (try_catch_throw _ _ _ _ _ Hbody).
  unfold getStream_catch, bind, log, throw. cbn.
  eexists. split; [reflexivity |].
  intros x. transitivity (history x w1); [done |].
  rewrite Hsame1. apply Hsame0.
Qed.

Lemma monitor_resume_memory (stream : Stream) (sessionId : string)
    (text : string) (w w' : World) (r : Result (IteratorResult * Generator)) :
  monitor_resume stream sessionId (text, None) w = (r, w') ->
  sessionMemory w' = sessionMemory w.
Proof.
  destruct stream as [| chunk rest | e];
    unfold monitor_resume, bind, log, ret, throw; cbn;
    intros [= _ <-]; reflexivity.
Qed.

(** The first [next()] stores the user turn and nothing else. *)
Lemma first_next_commits_user (stream : Stream) (sessionId : string)
    (user : BaseMessage) (w w' : World)
    (r : Result (IteratorResult * Generator)) :
  gen_next (GenSuspendedStart stream sessionId user) w = (r, w') ->
  sessionMemory w' = addMessage sessionId user (sessionMemory w).
Proof.
  unfold gen_next, bind, sessionMemory_addMessage. intros Hnext.
  by apply monitor_resume_memory in Hnext.
Qed.

Lemma history_after_user (sessionId : string) (user : BaseMessage)
    (w w' : World) :
  sessionMemory w' = addMessage sessionId user (sessionMemory w) ->
  history sessionId w' = history sessionId w ++ [user]
  /\ forall x, sessionId <> x -> history x w' = history x w.
Proof.
  intros Hmem. unfold history. rewrite Hmem. split.
  - apply addMessage_stored_same.
  - intros x Hne. by apply addMessage_stored_other.
Qed.

(** A consumer that iterates a stream that ends normally to its end. *)
Lemma consume_to_completion (s : Stream) (sessionId : string)
    (user : BaseMessage) (w : World) (k : nat) :
  stream_error s = None ->
  length (stream_chunks s) < k ->
  exists w',
    consume k (GenSuspendedStart s sessionId user) w = (Ok (stream_chunks s), w')
    /\ history sessionId w'
       = history sessionId w ++ user :: option_list (last_text_message s)
    /\ forall x, sessionId <> x -> history x w' = history x w.
Proof.
  intros Herr Hk. destruct k as [| k]; [lia |]. rewrite consume_start.
  destruct (drain_done s k sessionId (""%string, None)
              (with_memory (addMessage sessionId user (sessionMemory w)) w) Herr)
    as (w' & Hrun & Hmem); [lia |].
  exists w'. split; [exact Hrun |].
  fold (last_text_message s) in Hmem. cbn in Hmem.
  pose proof (commit_history sessionId user (last_text_message s) w) as Hc.
  cbn zeta in Hc. destruct Hc as [Hmine Hothers].
  unfold commit_assistant in Hmem. split.
  - unfold history at 1. rewrite Hmem. exact Hmine.
  - intros x Hne. unfold history at 1. rewrite Hmem. by apply Hothers.
Qed.

(** A consumer that iterates into the failure of the model stream. *)
Lemma consume_to_failure (s : Stream) (sessionId : string)
    (user : BaseMessage) (w : World) (k : nat) (cause : Error) :
  stream_error s = Some cause ->
  length (stream_chunks s) < k ->
  exists w',
    consume k (GenSuspendedStart s sessionId user) w = (Throw cause, w')
    /\ history sessionId w' = history sessionId w ++ [user]
    /\ forall x, sessionId <> x -> history x w' = history x w.
Proof.
  intros Herr Hk. destruct k as [| k]; [lia |]. rewrite consume_start.
  destruct (drain_failure s k sessionId (""%string, None)
              (with_memory (addMessage sessionId user (sessionMemory w)) w)
              cause Herr)
    as (w' & Hrun & Hmem & _); [lia |].
  exists w'. split; [exact Hrun |]. by apply history_after_user.
Qed.

(** A consumer that takes [k] of the chunks and leaves. *)
Lemma consume_then_leave (s : Stream) (sessionId : string)
    (user : BaseMessage) (w : World) (k : nat) :
  k <= length (stream_chunks s) ->
  exists w',
    consume k (GenSuspendedStart s sessionId user) w
    = (Ok (take k (stream_chunks s)), w')
    /\ history sessionId w'
       = history sessionId w ++ match k with O => [] | S _ => [user] end
    /\ forall x, sessionId <> x -> history x w' = history x w.
Proof.
  intros Hk. destruct k as [| k].
  - exists w. split; [reflexivity |]. by rewrite app_nil_r.
  - rewrite consume_start, drain_partial by done.
    eexists. split; [reflexivity |]. by apply history_after_user.
Qed.

(** ** Commit on completion *)

Lemma fold_accumulate_some (chunks : list Chunk)
    (acc : string * option BaseMessage) :
  is_Some (snd acc) ->
  is_Some (snd (fold_left (fun a c => accumulate c a) chunks acc)).
Proof.
  revert acc. induction chunks as [| chunk chunks IH]; intros acc Hacc; [done |].
  cbn [fold_left]. apply IH. unfold accumulate.
  by destruct (chunk_text chunk) as [[fragment m] |].
Qed.

Lemma fold_accumulate_exists (chunks : list Chunk)
    (acc : string * option BaseMessage) :
  Exists (fun chunk => chunk_text chunk <> None) chunks ->
  is_Some (snd (fold_left (fun a c => accumulate c a) chunks acc)).
Proof.
  intros Hex. revert acc.
  induction Hex as [chunk chunks Hchunk | chunk chunks _ IH]; intros acc.
  - cbn [fold_left]. apply fold_accumulate_some. unfold accumulate.
    by destruct (chunk_text chunk) as [[fragment m] |].
  - cbn [fold_left]. apply IH.
Qed.

Lemma assistant_part_kept (s : Stream) :
  assistant_part s (option_list (last_text_message s)).
Proof.
  unfold last_text_message. split.
  - intros Hnone. by rewrite (accumulate_no_text _ _ Hnone).
  - intros Hex.
    destruct (fold_accumulate_exists (stream_chunks s) (""%string, None) Hex)
      as [m ->].
    by exists m.
Qed.

(** C4, as amended: when the model stream ends normally, the session's
    stored turns grow by the new user turn followed, if some chunk carried
    string content, by exactly one assistant turn, the user turn first; with
    no such chunk the user turn alone is stored.  This holds for
    [processQuery] and for a consumer that iterates the stream of
    [getStream] to its end. *)
Theorem commit_user_then_assistant (env : Env) (query : string)
    (sessionId : option string) (w : World) (s : Stream) :
  can_start env w ->
  agent_stream env (request_messages env query sessionId w) = Ok s ->
  stream_error s = None ->
  (exists response w' tail,
     processQuery env query sessionId w = (Ok response, w')
     /\ assistant_part s tail
     /\ history (effectiveSessionId env sessionId) w'
        = history (effectiveSessionId env sessionId) w
          ++ HumanMessage query :: tail)
  /\ (exists g w1,
        getStream env query sessionId w = (Ok g, w1)
        /\ same_histories w w1
        /\ forall k, length (stream_chunks s) < k ->
             exists w2 tail,
               consume k g w1 = (Ok (stream_chunks s), w2)
               /\ assistant_part s tail
               /\ history (effectiveSessionId env sessionId) w2
                  = history (effectiveSessionId env sessionId) w
                    ++ HumanMessage query :: tail).
Proof.
  intros Hstart Hs Herr. split.
  - destruct (processQuery_success env query sessionId w s Hstart Hs Herr)
      as (w' & Hrun & Hmine & _).
    exists (full_text s), w', (option_list (last_text_message s)).
    split_and!; [exact Hrun | apply assistant_part_kept | exact Hmine].
  - destruct (getStream_ok env query sessionId w s Hstart Hs)
      as (w1 & Hrun & Hsame).
    eexists _, w1. split; [exact Hrun |]. split; [exact Hsame |].
    intros k Hk.
    destruct (consume_to_completion s (effectiveSessionId env sessionId)
                (HumanMessage query) w1 k Herr Hk) as (w2 & Hc & Hmine & _).
    exists w2, (option_list (last_text_message s)).
    split_and!; [exact Hc | apply assistant_part_kept |].
    by rewrite Hmine, Hsame.
Qed.

Lemma commit_user_then_assistant_witness :
  (exists response w' tail,
     processQuery (env_streaming hello_stream) "hi" (Some "s1"%string)
       example_world = (Ok response, w')
     /\ assistant_part hello_stream tail
     /\ history "s1" w' = [turn MHuman "earlier"; HumanMessage "hi"] ++ tail)
  /\ (exists g w1,
        getStream (env_streaming hello_stream) "hi" (Some "s1"%string)
          example_world = (Ok g, w1)
        /\ same_histories example_world w1
        /\ forall k, 2 < k ->
             exists w2 tail,
               consume k g w1 = (Ok (stream_chunks hello_stream), w2)
               /\ assistant_part hello_stream tail
               /\ history "s1" w2
                  = [turn MHuman "earlier"; HumanMessage "hi"] ++ tail).
Proof.
  apply (commit_user_then_assistant (env_streaming hello_stream) "hi"
           (Some "s1"%string) example_world hello_stream).
  - left. reflexivity.
  - reflexivity.
  - reflexivity.
Defined.

(** A stream that ends normally without any string content: the claim that
    an assistant turn follows the user turn fails. *)
Lemma commit_without_assistant_counterexample :
  ~ (exists ai : BaseMessage,
       history "s1"
         (processQuery (env_streaming blocks_stream) "hi" (Some "s1"%string)
            example_world).2
       = history "s1" example_world ++ [HumanMessage "hi"; ai]).
Proof. intros [ai Hai]. vm_compute in Hai. discriminate. Qed.

(** C9: a stream that ends normally without a chunk of string content makes
    [processQuery] store the user turn alone and return the empty string. *)
Theorem no_text_commits_user_only (env : Env) (query : string)
    (sessionId : option string) (w : World) (s : Stream) :
  can_start env w ->
  agent_stream env (request_messages env query sessionId w) = Ok s ->
  stream_error s = None ->
  Forall (fun chunk => chunk_text chunk = None) (stream_chunks s) ->
  exists w',
    processQuery env query sessionId w = (Ok ""%string, w')
    /\ history (effectiveSessionId env sessionId) w'
       = history (effectiveSessionId env sessionId) w ++ [HumanMessage query]
    /\ forall x, effectiveSessionId env sessionId <> x ->
                 history x w' = history x w.
Proof.
  intros Hstart Hs Herr Hnone.
  destruct (processQuery_success env query sessionId w s Hstart Hs Herr)
    as (w' & Hrun & Hmine & Hothers).
  unfold full_text in Hrun. unfold last_text_message in Hmine.
  rewrite (accumulate_no_text _ _ Hnone) in Hrun, Hmine.
  by exists w'.
Qed.

Lemma no_text_commits_user_only_witness :
  exists w',
    processQuery (env_streaming blocks_stream) "hi" (Some "s1"%string)
      example_world = (Ok ""%string, w')
    /\ history "s1" w' = [turn MHuman "earlier"; HumanMessage "hi"]
    /\ forall x, "s1"%string <> x -> history x w' = history x example_world.
Proof.
  apply (no_text_commits_user_only (env_streaming blocks_stream) "hi"
           (Some "s1"%string) example_world blocks_stream).
  - left. reflexivity.
  - reflexivity.
  - reflexivity.
  - repeat constructor.
Defined.

(** ** Failure and abandonment *)

(** C2: when the model invocation or the stream fails, no assistant turn is
    stored.  [processQuery] then leaves every session's stored turns as they
    were, the new user turn included; so does [getStream] when the
    invocation itself fails.  Once the stream returned by [getStream] is
    started, the user turn is stored by the first [next()], and it stays
    stored, alone, when the stream fails later. *)
Theorem failure_commits_no_assistant (env : Env) (query : string)
    (sessionId : option string) (w : World) (cause : Error) :
  can_start env w ->
  (request_fails env (request_messages env query sessionId w) cause ->
   exists thrown w',
     processQuery env query sessionId w = (Throw thrown, w')
     /\ same_histories w w')
  /\ (agent_stream env (request_messages env query sessionId w) = Throw cause ->
      exists thrown w',
        getStream env query sessionId w = (Throw thrown, w')
        /\ same_histories w w')
  /\ (forall s,
        agent_stream env (request_messages env query sessionId w) = Ok s ->
        stream_error s = Some cause ->
        exists g w1,
          getStream env query sessionId w = (Ok g, w1)
          /\ same_histories w w1
          /\ (forall r w2,
                gen_next g w1 = (r, w2) ->
                history (effectiveSessionId env sessionId) w2
                = history (effectiveSessionId env sessionId) w
                  ++ [HumanMessage query])
          /\ forall k, length (stream_chunks s) < k ->
               exists w2,
                 consume k g w1 = (Throw cause, w2)
                 /\ history (effectiveSessionId env sessionId) w2
                    = history (effectiveSessionId env sessionId) w
                      ++ [HumanMessage query]
                 /\ forall x, effectiveSessionId env sessionId <> x ->
                              history x w2 = history x w).
Proof.
  intros Hstart. split_and!.
  - intros Hfail.
    destruct (processQuery_failure env query sessionId w cause Hstart Hfail)
      as (w' & Hrun & Hsame & _).
    eexists _, w'. split; [exact Hrun | exact Hsame].
  - intros Hthrow.
    destruct (getStream_failure env query sessionId w cause Hstart Hthrow)
      as (w' & Hrun & Hsame).
    eexists _, w'. split; [exact Hrun | exact Hsame].
  - intros s Hs Herr.
    destruct (getStream_ok env query sessionId w s Hstart Hs)
      as (w1 & Hrun & Hsame).
    eexists _, w1. split_and!; [exact Hrun | exact Hsame | |].
    + intros r w2 Hnext. apply first_next_commits_user in Hnext.
      apply history_after_user in Hnext as [Hmine _]. by rewrite Hmine, Hsame.
    + intros k Hk.
      destruct (consume_to_failure s (effectiveSessionId env sessionId)
                  (HumanMessage query) w1 k cause Herr Hk)
        as (w2 & Hc & Hmine & Hothers).
      exists w2. split_and!; [exact Hc | by rewrite Hmine, Hsame |].
      intros x Hne. by rewrite (Hothers x Hne), Hsame.
Qed.

Lemma failure_commits_no_assistant_witness :
  exists g w1,
    getStream (env_streaming broken_stream) "hi" (Some "s1"%string)
      example_world = (Ok g, w1)
    /\ exists w2,
         consume 5 g w1 = (Throw boom, w2)
         /\ history "s1" w2 = [turn MHuman "earlier"; HumanMessage "hi"].
Proof.
  assert (Hstart : can_start (env_streaming broken_stream) example_world)
    by (left; reflexivity).
  destruct (proj2 (proj2 (failure_commits_no_assistant
                            (env_streaming broken_stream) "hi"
                            (Some "s1"%string) example_world boom Hstart))
              broken_stream eq_refl eq_refl)
    as (g & w1 & Hrun & _ & _ & Hfail).
  exists g, w1. split; [exact Hrun |].
  destruct (Hfail 5) as (w2 & Hc & Hmine & _); [simpl; lia |].
  exists w2. split; [exact Hc | exact Hmine].
Defined.

(** C7: a consumer that takes [k] of the chunks of the stream returned by
    [getStream] and leaves before the generator has seen the end of the
    model stream leaves no assistant turn behind: the session's stored turns
    are the earlier ones, followed by the user turn if the stream was
    started at all. *)
Theorem early_stop_commits_no_assistant (env : Env) (query : string)
    (sessionId : option string) (w : World) (s : Stream) (k : nat) :
  can_start env w ->
  agent_stream env (request_messages env query sessionId w) = Ok s ->
  k <= length (stream_chunks s) ->
  exists g w1 w2,
    getStream env query sessionId w = (Ok g, w1)
    /\ consume k g w1 = (Ok (take k (stream_chunks s)), w2)
    /\ history (effectiveSessionId env sessionId) w2
       = history (effectiveSessionId env sessionId) w
         ++ match k with O => [] | S _ => [HumanMessage query] end
    /\ forall x, effectiveSessionId env sessionId <> x ->
                 history x w2 = history x w.
Proof.
  intros Hstart Hs Hk.
  destruct (getStream_ok env query sessionId w s Hstart Hs)
    as (w1 & Hrun & Hsame).
  destruct (consume_then_leave s (effectiveSessionId env sessionId)
              (HumanMessage query) w1 k Hk) as (w2 & Hc & Hmine & Hothers).
  eexists _, w1, w2. split_and!; [exact Hrun | exact Hc | |].
  - by rewrite Hmine, Hsame.
  - intros x Hne. by rewrite (Hothers x Hne), Hsame.
Qed.

Lemma early_stop_commits_no_assistant_witness :
  exists g w1 w2,
    getStream (env_streaming hello_stream) "hi" (Some "s1"%string)
      example_world = (Ok g, w1)
    /\ consume 1 g w1 = (Ok [text_chunk "Hel"], w2)
    /\ history "s1" w2 = [turn MHuman "earlier"; HumanMessage "hi"]
    /\ forall x, "s1"%string <> x -> history x w2 = history x example_world.
Proof.
  apply (early_stop_commits_no_assistant (env_streaming hello_stream) "hi"
           (Some "s1"%string) example_world hello_stream 1).
  - left. reflexivity.
  - reflexivity.
  - simpl. lia.
Defined.

(** ** Errors reach the caller *)

Lemma string_length_app (s1 s2 : string) :
  String.length (s1 +:+ s2) = String.length s1 + String.length s2.
Proof. induction s1 as [| c s1 IH]; simpl; [done | by f_equal]. Qed.

Lemma wraps_prefix (prefix : string) (thrown cause : Error) :
  prefix <> ""%string ->
  message thrown = prefix +:+ message cause ->
  wraps thrown cause.
Proof. intros Hne Hmsg. by exists prefix. Qed.

(** A failed initialisation at the head of [processQuery] or [getStream]
    is outside their [try] blocks: it reaches the caller as it is. *)
Lemma initialisation_failure_rethrown (env : Env) (query : string)
    (sessionId : option string) (w : World) (e : Error) :
  isInitialized w = false ->
  initChatModel env = Throw e ->
  (exists w', processQuery env query sessionId w = (Throw e, w')
              /\ same_histories w w')
  /\ (exists w', getStream env query sessionId w = (Throw e, w')
                 /\ same_histories w w').
Proof.
  intros Hinit Hllm.
  destruct (ensureInitialized_failure env w e Hinit Hllm) as (w0 & Hrun & Hmem).
  split; exists w0; (split; [| by apply same_histories_init]).
  - unfold processQuery. by apply bind_throw.
  - unfold getStream. by apply bind_throw.
Qed.

(** C6, as amended: no failure is swallowed.  A failure of the model
    invocation or of the stream inside [processQuery], and a failure of the
    model invocation inside [getStream], reach the caller as a new error
    whose message is a fixed prefix followed by the cause's message.  A
    failure of the model stream while the stream returned by [getStream] is
    consumed reaches the consumer as the original error, rethrown as it is. *)
Theorem failures_reach_the_caller (env : Env) (query : string)
    (sessionId : option string) (w : World) (cause : Error) :
  can_start env w ->
  (request_fails env (request_messages env query sessionId w) cause ->
   exists thrown w',
     processQuery env query sessionId w = (Throw thrown, w')
     /\ message thrown = "クエリ処理に失敗しました: " +:+ message cause
     /\ wraps thrown cause)
  /\ (agent_stream env (request_messages env query sessionId w) = Throw cause ->
      exists thrown w',
        getStream env query sessionId w = (Throw thrown, w')
        /\ message thrown = "ストリーム処理に失敗しました: " +:+ message cause
        /\ wraps thrown cause)
  /\ (forall s,
        agent_stream env (request_messages env query sessionId w) = Ok s ->
        stream_error s = Some cause ->
        exists g w1,
          getStream env query sessionId w = (Ok g, w1)
          /\ forall k, length (stream_chunks s) < k ->
               exists w2, consume k g w1 = (Throw cause, w2)).
Proof.
  intros Hstart. split_and!.
  - intros Hfail.
    destruct (processQuery_failure env query sessionId w cause Hstart Hfail)
      as (w' & Hrun & _).
    eexists _, w'. split; [exact Hrun |]. split; [done |].
    by apply (wraps_prefix "クエリ処理に失敗しました: ").
  - intros Hthrow.
    destruct (getStream_failure env query sessionId w cause Hstart Hthrow)
      as (w' & Hrun & _).
    eexists _, w'. split; [exact Hrun |]. split; [done |].
    by apply (wraps_prefix "ストリーム処理に失敗しました: ").
  - intros s Hs Herr.
    destruct (getStream_ok env query sessionId w s Hstart Hs)
      as (w1 & Hrun & _).
    eexists _, w1. split; [exact Hrun |]. intros k Hk.
    destruct (consume_to_failure s (effectiveSessionId env sessionId)
                (HumanMessage query) w1 k cause Herr Hk) as (w2 & Hc & _).
    by exists w2.
Qed.

Lemma failures_reach_the_caller_witness :
  exists thrown w',
    processQuery (env_refusing boom) "hi" (Some "s1"%string) example_world
    = (Throw thrown, w')
    /\ message thrown = "クエリ処理に失敗しました: boom"%string
    /\ wraps thrown boom.
Proof.
  apply (proj1 (failures_reach_the_caller (env_refusing boom) "hi"
                  (Some "s1"%string) example_world boom
                  (or_introl eq_refl))).
  left. reflexivity.
Defined.

(** The failure of the model stream under a consumer of [getStream]: the
    error received is the cause itself, not an error wrapping it. *)
Lemma stream_failure_not_wrapped_counterexample :
  ~ (forall g w1 r w2,
       getStream (env_streaming broken_stream) "hi" (Some "s1"%string)
         example_world = (Ok g, w1) ->
       consume 2 g w1 = (r, w2) ->
       exists thrown, r = Throw thrown /\ wraps thrown boom).
Proof.
  intros Hclaim.
  destruct (Hclaim _ _ _ _ eq_refl eq_refl) as (thrown & Hr & prefix & Hne & Hmsg).
  injection Hr as <-. cbn in Hmsg.
  destruct prefix as [| c prefix]; [done |].
  apply (f_equal String.length) in Hmsg. cbn in Hmsg.
  rewrite string_length_app in Hmsg. cbn in Hmsg. lia.
Qed.

(** ** What the failure log holds *)

Lemma units_of_byte_le (c : ascii) : units_of_byte c <= 2.
Proof.
  unfold units_of_byte. cbn zeta.
  repeat match goal with
         | |- context [?x <? ?y] => destruct (Nat.ltb_spec x y)
         end; lia.
Qed.

Lemma units_of_byte_continuation (b : nat) :
  128 <= b < 192 -> units_of_byte (ascii_of_nat b) = 0.
Proof.
  intros Hb. unfold units_of_byte. cbn zeta.
  rewrite nat_ascii_embedding by lia.
  destruct (Nat.ltb_spec b 128); [lia |].
  destruct (Nat.ltb_spec b 192); [done | lia].
Qed.

Lemma js_length_app (a b : string) :
  js_length (a +:+ b) = js_length a + js_length b.
Proof.
  induction a as [| c a IH]; [done |].
  change (String c a +:+ b) with (String c (a +:+ b)).
  cbn [js_length]. rewrite IH. lia.
Qed.

Lemma high_surrogate_length (c : ascii) (s' : string) :
  js_length (high_surrogate c s') = 1.
Proof.
  unfold high_surrogate. cbn zeta.
  set (w := ((nat_of_ascii c mod 8) * 256 + (byte_at 0 s' mod 64) * 4
             + (byte_at 1 s' mod 64) / 16 - 64) mod 1024).
  assert (Hw : w < 1024) by (apply Nat.mod_upper_bound; lia).
  assert (Hq : w / 64 < 16) by (apply Nat.Div0.div_lt_upper_bound; lia).
  assert (Hr : w mod 64 < 64) by (apply Nat.mod_upper_bound; lia).
  cbn [js_length].
  rewrite (units_of_byte_continuation (160 + w / 64)) by lia.
  rewrite (units_of_byte_continuation (128 + w mod 64)) by lia.
  reflexivity.
Qed.

(** [substring(0, n)] has [n] code units, or all of them when the string has
    fewer. *)
Lemma js_length_take (n : nat) (s : string) :
  js_length (js_take n s) = Nat.min n (js_length s).
Proof.
  revert n. induction s as [| c s IH]; intros n; [cbn; lia |].
  cbn [js_take js_length]. pose proof (units_of_byte_le c) as Hu.
  destruct (Nat.leb_spec (units_of_byte c) n) as [Hle | Hgt].
  - cbn [js_length]. rewrite IH. lia.
  - destruct (Nat.eqb_spec n 1) as [-> | Hn].
    + rewrite high_surrogate_length. lia.
    + cbn. lia.
Qed.


Lemma request_entry_truncated (infoText query sessionId : string) :
  query_truncated (request_entry infoText query sessionId).
Proof.
  intros v [Hv | [Hv | []]].
  - injection Hv as <-. rewrite js_length_app, js_length_take.
    change (js_length "...") with 3. lia.
  - discriminate Hv.
Qed.

(** C8, as amended: when [processQuery] fails, the error entry it logs
    holds the cause's message and the whole query text; the query cut to its
    first 100 UTF-16 code units, followed by ["..."], is in the information
    entry logged when the request started, which directly precedes it. *)
Theorem failure_log_entries (env : Env) (query : string)
    (sessionId : option string) (w : World) (cause : Error) :
  can_start env w ->
  request_fails env (request_messages env query sessionId w) cause ->
  exists thrown w' entries,
    processQuery env query sessionId w = (Throw thrown, w')
    /\ logged w'
       = logged w ++ entries
         ++ [request_entry "Processing legal query with session" query
               (effectiveSessionId env sessionId);
             failure_entry query cause]
    /\ meta (failure_entry query cause)
       = [("error"%string, LStr (message cause)); ("query"%string, LStr query)]
    /\ query_truncated
         (request_entry "Processing legal query with session" query
            (effectiveSessionId env sessionId)).
Proof.
  intros Hstart Hfail.
  destruct (processQuery_failure env query sessionId w cause Hstart Hfail)
    as (w' & Hrun & _ & entries & Hlog).
  eexists _, w', entries. split_and!; [exact Hrun | exact Hlog | done |].
  apply request_entry_truncated.
Qed.

Lemma failure_log_entries_witness :
  exists thrown w' entries,
    processQuery (env_refusing boom) long_query (Some "s1"%string) example_world
    = (Throw thrown, w')
    /\ logged w'
       = logged example_world ++ entries
         ++ [request_entry "Processing legal query with session" long_query "s1";
             failure_entry long_query boom]
    /\ meta (failure_entry long_query boom)
       = [("error"%string, LStr "boom"); ("query"%string, LStr long_query)]
    /\ query_truncated
         (request_entry "Processing legal query with session" long_query "s1").
Proof.
  apply (failure_log_entries (env_refusing boom) long_query (Some "s1"%string)
           example_world boom).
  - left. reflexivity.
  - left. reflexivity.
Defined.

(** A failing request with a query of 120 characters: the error entry holds
    all 120 of them. *)
Lemma error_log_full_query_counterexample :
  ~ (forall entry : LogEntry,
       last (logged (processQuery (env_refusing boom) long_query
                       (Some "s1"%string) example_world).2) = Some entry ->
       level entry = LevelError ->
       query_truncated entry).
Proof.
  intros Hclaim.
  assert (Hlen : js_length long_query <= 103).
  { apply (Hclaim (failure_entry long_query boom)).
    - vm_compute. reflexivity.
    - reflexivity.
    - right. left. reflexivity. }
  vm_compute in Hlen. lia.
Qed.

(** ** Generated session identifiers *)

Lemma radix36_char_alnum (d : nat) : is_alnum (radix36_char d) = true.
Proof.
  unfold radix36_char.
  assert (Hlt : d mod 36 < 36) by (apply Nat.mod_upper_bound; lia).
  remember (d mod 36) as r eqn:Hr. clear Hr.
  do 36 (destruct r as [| r]; [reflexivity |]). lia.
Qed.

Lemma substring_prefix_of_list (n : nat) (l : list ascii) :
  String.substring 0 n (string_of_list_ascii l) = string_of_list_ascii (take n l).
Proof.
  revert l. induction n as [| n IH]; intros [| c l]; cbn; try done.
  by rewrite IH.
Qed.

Lemma string_of_list_length (l : list ascii) :
  String.length (string_of_list_ascii l) = length l.
Proof. induction l as [| c l IH]; cbn; [done | by rewrite IH]. Qed.

Lemma pretty_N_char_digit (x : N) : is_digit (pretty_N_char x) = true.
Proof. unfold pretty_N_char. by repeat case_match. Qed.

Lemma pretty_N_go_digits (x : N) (s : string) :
  Forall (fun c => is_digit c = true) (list_ascii_of_string s) ->
  Forall (fun c => is_digit c = true) (list_ascii_of_string (pretty_N_go x s)).
Proof.
  revert s. induction (N.lt_wf_0 x) as [x _ IH]. intros s Hs.
  destruct (decide (x = 0%N)) as [-> | Hpos]; [by rewrite pretty_N_go_0 |].
  rewrite pretty_N_go_step by lia. apply IH.
  - apply N.div_lt; lia.
  - cbn. constructor; [apply pretty_N_char_digit | exact Hs].
Qed.

Lemma pretty_N_digits (x : N) :
  Forall (fun c => is_digit c = true) (list_ascii_of_string (pretty x)).
Proof.
  unfold pretty, pretty_N. case_decide.
  - by repeat constructor.
  - apply pretty_N_go_digits. constructor.
Qed.

Lemma suffix_of_fraction (random : list nat) :
  String.substring 2 9 (toString36 random)
  = string_of_list_ascii (take 9 (radix36_char <$> random)).
Proof.
  destruct random as [| d random]; [done |].
  change (toString36 (d :: random))
    with (String "0" (String "." (string_of_list_ascii
                                    (radix36_char <$> d :: random)))).
  change (String.substring 2 9 (String "0" (String "." ?s)))
    with (String.substring 0 9 s).
  apply substring_prefix_of_list.
Qed.

(** C5, as amended: a request without a session identifier (absent or
    empty) uses the generated one, which is ["session_"], the decimal digits
    of the clock reading, ["_"], and a suffix of at most nine characters, all
    digits or lower-case letters: the first nine fraction digits of the
    base-36 rendering of the random number, in their order, or all of them
    when the rendering has fewer than nine, the digit [d] written as the
    [d]-th character of [0123456789abcdefghijklmnopqrstuvwxyz]. *)
Theorem generated_session_id_format (env : Env) :
  effectiveSessionId env None
  = generateDefaultSessionId (Date_now env) (Math_random env)
  /\ effectiveSessionId env (Some ""%string)
     = generateDefaultSessionId (Date_now env) (Math_random env)
  /\ string_of_list_ascii (radix36_char <$> seq 0 36)
     = "0123456789abcdefghijklmnopqrstuvwxyz"%string
  /\ forall (now : N) (random : list nat),
       exists suffix : string,
         generateDefaultSessionId now random
         = "session_" +:+ pretty now +:+ "_" +:+ suffix
         /\ suffix = string_of_list_ascii (radix36_char <$> take 9 random)
         /\ String.length suffix = Nat.min 9 (length random)
         /\ Forall (fun c => is_alnum c = true) (list_ascii_of_string suffix)
         /\ Forall (fun c => is_digit c = true)
              (list_ascii_of_string (pretty now)).
Proof.
  split_and!; [done | done | done |]. intros now random.
  exists (String.substring 2 9 (toString36 random)).
  split_and!; [done | | | | apply pretty_N_digits].
  - by rewrite suffix_of_fraction, fmap_take.
  - rewrite suffix_of_fraction, string_of_list_length, length_take.
    by rewrite length_fmap.
  - rewrite suffix_of_fraction, list_ascii_of_string_of_list_ascii.
    apply Forall_take, Forall_fmap, Forall_true. intros x. cbn.
    apply radix36_char_alnum.
Qed.

(** The random number 0.5 is [0.i] in base 36: the suffix is one character
    long, not nine. *)
Lemma session_suffix_nine_counterexample :
  exact_radix36 30 1 2 = [18]
  /\ ~ (exists suffix : string,
          generateDefaultSessionId 1700000000000 (exact_radix36 30 1 2)
          = "session_1700000000000_" +:+ suffix
          /\ String.length suffix = 9).
Proof.
  split; [reflexivity |]. intros (suffix & Hid & Hlen).
  apply (f_equal String.length) in Hid.
  rewrite string_length_app, Hlen in Hid. vm_compute in Hid. discriminate.
Qed.

(** * Further properties *)

(** ** The trimmer: size, content and order of the result *)

Lemma filter_system_none (turns : list BaseMessage) :
  Forall (fun t => _getType t <> MSystem) turns ->
  List.filter is_system turns = [].
Proof.
  induction 1 as [| t turns Ht _ IH]; [done |]. cbn.
  unfold is_system at 1. by rewrite bool_decide_eq_false_2.
Qed.

Lemma trimMessages_cases (turns : list BaseMessage) :
  (length turns <= maxContextMessages /\ trimMessages turns = turns)
  \/ (maxContextMessages < length turns
      /\ trimMessages turns
         = List.filter is_system turns
           ++ drop (length turns - maxContextMessages) turns).
Proof.
  destruct (Nat.le_gt_cases (length turns) maxContextMessages) as [Hle | Hgt].
  - left. split; [done |]. by apply trimMessagesWith_short.
  - right. split; [done |]. unfold trimMessages.
    by rewrite trimMessagesWith_long.
Qed.

(** X1: the result of [trimMessages] has the length of the input when that
    is at most ten, and otherwise ten plus the number of system turns of the
    input; so it never exceeds ten plus the number of system turns. *)
Theorem trimMessages_length (turns : list BaseMessage) :
  length (trimMessages turns)
  = (if length turns <=? maxContextMessages then length turns
     else length (List.filter is_system turns) + maxContextMessages)
  /\ length (trimMessages turns)
     <= maxContextMessages + length (List.filter is_system turns).
Proof.
  destruct (trimMessages_cases turns) as [[Hle ->] | [Hgt ->]].
  - destruct (Nat.leb_spec (length turns) maxContextMessages); lia.
  - rewrite length_app, length_drop.
    destruct (Nat.leb_spec (length turns) maxContextMessages); lia.
Qed.

(** X2: when the history holds no system turn, [trimMessages] returns
    exactly its last ten turns (all of it when there are at most ten), in
    order. *)
Theorem trimMessages_without_system (turns : list BaseMessage) :
  Forall (fun t => _getType t <> MSystem) turns ->
  trimMessages turns = drop (length turns - maxContextMessages) turns
  /\ length (trimMessages turns) = Nat.min (length turns) maxContextMessages.
Proof.
  intros Hplain.
  assert (Heq : trimMessages turns
                = drop (length turns - maxContextMessages) turns).
  { destruct (trimMessages_cases turns) as [[Hle ->] | [Hgt ->]].
    - replace (length turns - maxContextMessages) with 0 by lia. done.
    - by rewrite (filter_system_none turns Hplain). }
  split; [exact Heq |]. rewrite Heq, length_drop. lia.
Qed.

Lemma trimMessages_without_system_witness :
  trimMessages plain_turns = drop 2 plain_turns
  /\ length (trimMessages plain_turns) = 10.
Proof.
  apply (trimMessages_without_system plain_turns).
  repeat constructor; discriminate.
Defined.

(** X3: [trimMessages] invents no turn and loses no system turn: every turn
    of the result is a turn of the input, every system turn of the input is
    in the result, and the last ten turns of the input (all of them when
    there are at most ten) end the result, in their order. *)
Theorem trimMessages_content (turns : list BaseMessage) :
  (forall t, In t (trimMessages turns) -> In t turns)
  /\ (forall t, In t turns -> _getType t = MSystem -> In t (trimMessages turns))
  /\ drop (length turns - maxContextMessages) turns
     `suffix_of` trimMessages turns.
Proof.
  destruct (trimMessages_cases turns) as [[Hle ->] | [Hgt ->]].
  - split_and!; [done | done |]. apply suffix_drop.
  - split_and!.
    + intros t Ht. apply in_app_or in Ht as [Ht | Ht].
      * by apply filter_system_spec in Ht as [Ht _].
      * apply list_elem_of_In.
        apply (subseteq_drop (length turns - maxContextMessages) turns).
        by apply list_elem_of_In.
    + intros t Ht Hsys. apply in_or_app. left. by apply filter_system_spec.
    + by apply suffix_app_r.
Qed.

Lemma trimMessages_content_witness :
  In (turn MSystem "system") (trimMessages late_system_turns)
  /\ In (turn MAi "a4") late_system_turns.
Proof.
  destruct (trimMessages_content late_system_turns) as (Hfrom & Hsys & _).
  split.
  - apply Hsys; [| reflexivity]. vm_compute. tauto.
  - apply Hfrom. vm_compute. tauto.
Defined.

(** ** Session identifiers: which one is used, and what it determines *)

(** X4: the session identifier a request uses is never empty: a non-empty
    identifier given by the caller is used as it is, and an absent or empty
    one is replaced by a generated identifier, which starts with
    ["session_"]. *)
Theorem effectiveSessionId_given_or_generated (env : Env)
    (sessionId : option string) :
  effectiveSessionId env sessionId <> ""%string
  /\ (forall s, sessionId = Some s -> s <> ""%string ->
                effectiveSessionId env sessionId = s)
  /\ (sessionId = None \/ sessionId = Some ""%string ->
      exists rest, effectiveSessionId env sessionId = "session_" +:+ rest).
Proof.
  split_and!.
  - destruct sessionId as [[| c s] |]; done.
  - intros s -> Hne. by destruct s.
  - intros [-> | ->]; eexists; reflexivity.
Qed.

Lemma effectiveSessionId_given_or_generated_witness :
  effectiveSessionId (env_refusing boom) (Some "s1"%string) = "s1"%string
  /\ exists rest,
       effectiveSessionId (env_refusing boom) None = "session_" +:+ rest.
Proof.
  split.
  - apply (proj1 (proj2 (effectiveSessionId_given_or_generated
                           (env_refusing boom) (Some "s1"%string))) "s1"%string).
    + reflexivity.
    + discriminate.
  - apply (proj2 (proj2 (effectiveSessionId_given_or_generated
                           (env_refusing boom) None))).
    left. reflexivity.
Defined.

Lemma digits_then_underscore (a b x y : string) :
  Forall (fun c => is_digit c = true) (list_ascii_of_string a) ->
  Forall (fun c => is_digit c = true) (list_ascii_of_string b) ->
  a +:+ "_" +:+ x = b +:+ "_" +:+ y ->
  a = b /\ x = y.
Proof.
  revert b. induction a as [| c a IH]; intros [| d b] Ha Hb Heq;
    simpl in Ha, Hb, Heq.
  - injection Heq as Heq. by subst.
  - injection Heq as Hc _. subst d. by inversion Hb.
  - injection Heq as Hc _. subst c. by inversion Ha.
  - injection Heq as Hc Heq. subst d. inversion Ha. inversion Hb. subst.
    destruct (IH b) as [Hab Hxy]; [done | done | done |]. by subst.
Qed.

(** X5: a generated identifier determines the clock reading and the suffix
    it was built from: two generated identifiers are equal only if they were
    generated at the same millisecond with the same nine-character suffix. *)
Theorem generateDefaultSessionId_unambiguous (now1 now2 : N)
    (random1 random2 : list nat) :
  generateDefaultSessionId now1 random1 = generateDefaultSessionId now2 random2 ->
  now1 = now2
  /\ String.substring 2 9 (toString36 random1)
     = String.substring 2 9 (toString36 random2).
Proof.
  unfold generateDefaultSessionId. intros Heq.
  change ("session_" +:+ ?s)
    with (String "s" (String "e" (String "s" (String "s" (String "i"
           (String "o" (String "n" (String "_" s)))))))) in Heq.
  injection Heq as Heq.
  apply digits_then_underscore in Heq as [Hnow Hsuffix];
    [| apply pretty_N_digits | apply pretty_N_digits].
  split; [| exact Hsuffix]. by apply (inj pretty).
Qed.

Lemma generateDefaultSessionId_unambiguous_witness :
  1700000000000%N = 1700000000000%N
  /\ String.substring 2 9 (toString36 [1; 2; 3; 4; 5; 6; 7; 8; 9; 10])
     = String.substring 2 9 (toString36 [1; 2; 3; 4; 5; 6; 7; 8; 9; 11]).
Proof.
  apply (generateDefaultSessionId_unambiguous 1700000000000 1700000000000
           [1; 2; 3; 4; 5; 6; 7; 8; 9; 10] [1; 2; 3; 4; 5; 6; 7; 8; 9; 11]).
  reflexivity.
Defined.

(** ** What a request leaves alone *)

#[local] Instance world_logs_preorder : PreOrder world_logs.
Proof.
  split.
  - intros w. by split_and!.
  - intros w1 w2 w3 (Hc12 & Hi12 & Hl12 & Hh12) (Hc23 & Hi23 & Hl23 & Hh23).
    split_and!; [congruence | auto | by etrans |].
    by eapply same_histories_trans.
Qed.

#[local] Instance world_grows_preorder (sessionId : string) :
  PreOrder (world_grows sessionId).
Proof.
  split.
  - intros w. by split_and!.
  - intros w1 w2 w3 (Hc12 & Hi12 & Hl12 & Hm12 & Ho12)
      (Hc23 & Hi23 & Hl23 & Hm23 & Ho23).
    split_and!; [congruence | auto | by etrans | by etrans |].
    intros s Hs. by rewrite Ho23, Ho12.
Qed.

Lemma world_logs_grows (sessionId : string) (w w' : World) :
  world_logs w w' -> world_grows sessionId w w'.
Proof.
  intros (Hc & Hi & Hl & Hh). split_and!; [done | done | done | |].
  - by rewrite Hh.
  - intros s _. apply Hh.
Qed.

Section Keeps.

Context (R : World -> World -> Prop) `{!PreOrder R}.

Lemma keeps_ret {A} (a : A) : keeps R (ret a).
Proof. intros w. reflexivity. Qed.

Lemma keeps_throw {A} (e : Error) : keeps R (@throw A e).
Proof. intros w. reflexivity. Qed.

Lemma keeps_lift {A} (r : Result A) : keeps R (lift r).
Proof. intros w. reflexivity. Qed.

Lemma keeps_bind {A B} (m : M A) (k : A -> M B) :
  keeps R m -> (forall a, keeps R (k a)) -> keeps R (bind m k).
Proof.
  intros Hm Hk w. unfold bind. specialize (Hm w).
  destruct (m w) as [[a | e] w1]; [| exact Hm].
  etrans; [exact Hm | apply Hk].
Qed.

Lemma keeps_try_catch {A} (m : M A) (handler : Error -> M A) :
  keeps R m -> (forall e, keeps R (handler e)) -> keeps R (try_catch m handler).
Proof.
  intros Hm Hh w. unfold try_catch. specialize (Hm w).
  destruct (m w) as [[a | e] w1]; [exact Hm |].
  etrans; [exact Hm | apply Hh].
Qed.

End Keeps.

Lemma keeps_weaken {A} (sessionId : string) (m : M A) :
  keeps world_logs m -> keeps (world_grows sessionId) m.
Proof. intros Hm w. apply world_logs_grows, Hm. Qed.

Lemma log_keeps (lvl : LogLevel) (msg : string)
    (fields : list (string * LogValue)) :
  keeps world_logs (log lvl msg fields).
Proof.
  intros w. split_and!; [done | done | by apply prefix_app_r | done].
Qed.

Lemma set_initialized_keeps : keeps world_logs set_initialized.
Proof. intros w. by split_and!. Qed.

Lemma read_modelConfig_keeps : keeps world_logs read_modelConfig.
Proof. intros w. reflexivity. Qed.

Lemma sessionMemory_getMessages_keeps (sessionId : string) :
  keeps world_logs (sessionMemory_getMessages sessionId).
Proof.
  intros w. split_and!; [done | done | done |].
  intros s. unfold history. cbn. apply getMessages_stored.
Qed.

Lemma sessionMemory_addMessage_keeps (sessionId : string) (t : BaseMessage) :
  keeps (world_grows sessionId) (sessionMemory_addMessage sessionId t).
Proof.
  intros w. split_and!; [done | done | done | |].
  - unfold history. cbn. rewrite addMessage_stored_same. by apply prefix_app_r.
  - intros s Hs. unfold history. cbn. by apply addMessage_stored_other.
Qed.

Lemma initializeAgent_keeps (env : Env) : keeps world_logs (initializeAgent env).
Proof.
  unfold initializeAgent.
  repeat first
    [ apply keeps_try_catch | apply keeps_bind | intros ? | apply log_keeps
    | apply keeps_lift | apply keeps_throw | apply set_initialized_keeps
    | apply read_modelConfig_keeps | apply world_logs_preorder ].
Qed.

Lemma ensureInitialized_keeps (env : Env) :
  keeps world_logs (ensureInitialized env).
Proof.
  intros w. unfold ensureInitialized.
  destruct (isInitialized w); [reflexivity | apply initializeAgent_keeps].
Qed.

Lemma open_stream_keeps (env : Env) (infoText query sessionId : string)
    (user : BaseMessage) :
  keeps world_logs (open_stream env infoText query sessionId user).
Proof.
  unfold open_stream.
  apply keeps_bind; [apply _ | apply log_keeps |]. intros _.
  apply keeps_bind; [apply _ | apply sessionMemory_getMessages_keeps |].
  intros turns. apply keeps_lift. apply _.
Qed.

Lemma processQuery_keeps (env : Env) (query : string)
    (sessionId : option string) :
  keeps (world_grows (effectiveSessionId env sessionId))
    (processQuery env query sessionId).
Proof.
  unfold processQuery.
  apply keeps_bind; [apply _ | apply keeps_weaken, ensureInitialized_keeps |].
  intros _. apply keeps_try_catch; [apply _ | |].
  - unfold processQuery_try. cbn zeta.
    apply keeps_bind; [apply _ | apply keeps_weaken, open_stream_keeps |].
    intros stream. apply keeps_bind; [apply _ | apply keeps_lift; apply _ |].
    intros collected.
    apply keeps_bind; [apply _ | apply sessionMemory_addMessage_keeps |].
    intros _. apply keeps_bind; [apply _ | |].
    { destruct (snd collected) as [m |];
        [apply sessionMemory_addMessage_keeps | apply keeps_ret; apply _]. }
    intros _.
    apply keeps_bind;
      [apply _ | apply keeps_weaken, sessionMemory_getMessages_keeps |].
    intros saved.
    apply keeps_bind; [apply _ | apply keeps_weaken, log_keeps |].
    intros _. apply keeps_ret. apply _.
  - intros e. unfold processQuery_catch.
    apply keeps_bind; [apply _ | apply keeps_weaken, log_keeps |].
    intros _. apply keeps_throw. apply _.
Qed.

Lemma getStream_keeps (env : Env) (query : string)
    (sessionId : option string) :
  keeps world_logs (getStream env query sessionId).
Proof.
  unfold getStream.
  apply keeps_bind; [apply _ | apply ensureInitialized_keeps |].
  intros _. apply keeps_try_catch; [apply _ | |].
  - unfold getStream_try. cbn zeta.
    apply keeps_bind; [apply _ | apply open_stream_keeps |].
    intros stream. apply keeps_ret. apply _.
  - intros e. unfold getStream_catch.
    apply keeps_bind; [apply _ | apply log_keeps |].
    intros _. apply keeps_throw. apply _.
Qed.

Lemma monitor_resume_keeps (stream : Stream) (sessionId : string)
    (acc : string * option BaseMessage) :
  keeps (world_grows sessionId) (monitor_resume stream sessionId acc).
Proof.
  destruct stream as [| chunk rest | e]; cbn.
  - apply keeps_bind; [apply _ | |].
    { destruct (snd acc) as [m |];
        [apply sessionMemory_addMessage_keeps | apply keeps_ret; apply _]. }
    intros _. apply keeps_bind; [apply _ | apply keeps_weaken, log_keeps |].
    intros _. apply keeps_ret. apply _.
  - apply keeps_ret. apply _.
  - apply keeps_bind; [apply _ | apply keeps_weaken, log_keeps |].
    intros _. apply keeps_throw. apply _.
Qed.

Lemma gen_next_keeps (sessionId : string) (g : Generator) :
  gen_session sessionId g -> keeps (world_grows sessionId) (gen_next g).
Proof.
  destruct g as [stream s user | chunk rest s acc |]; cbn; intros Hs.
  - subst s. apply keeps_bind; [apply _ | apply sessionMemory_addMessage_keeps |].
    intros _. apply monitor_resume_keeps.
  - subst s. apply monitor_resume_keeps.
  - apply keeps_ret. apply _.
Qed.

Lemma monitor_resume_session (stream : Stream) (sessionId : string)
    (acc : string * option BaseMessage) (w w' : World)
    (step : IteratorResult * Generator) :
  monitor_resume stream sessionId acc w = (Ok step, w') ->
  gen_session sessionId (snd step).
Proof.
  destruct stream as [| chunk rest | e];
    unfold monitor_resume, bind, log, ret, throw, sessionMemory_addMessage; cbn.
  - destruct (snd acc); intros [= <- _]; done.
  - intros [= <- _]. done.
  - intros [=].
Qed.

Lemma gen_next_session (sessionId : string) (g : Generator) (w w' : World)
    (step : IteratorResult * Generator) :
  gen_session sessionId g ->
  gen_next g w = (Ok step, w') ->
  gen_session sessionId (snd step).
Proof.
  destruct g as [stream s user | chunk rest s acc |]; cbn; intros Hs.
  - subst s. unfold bind, sessionMemory_addMessage. apply monitor_resume_session.
  - subst s. apply monitor_resume_session.
  - intros [= <- _]. done.
Qed.

Lemma consume_keeps (sessionId : string) (k : nat) :
  forall g, gen_session sessionId g ->
            keeps (world_grows sessionId) (consume k g).
Proof.
  induction k as [| k IH]; intros g Hg w.
  - reflexivity.
  - cbn [consume]. unfold bind at 1.
    pose proof (gen_next_keeps sessionId g Hg w) as Hnext.
    destruct (gen_next g w) as [[step | e] w1] eqn:Hstep; [| exact Hnext].
    cbn in Hnext. etrans; [exact Hnext |].
    pose proof (gen_next_session sessionId g w w1 step Hg Hstep) as Hg'.
    destruct (fst step) as [chunk |].
    + apply (keeps_bind (world_grows sessionId));
        [apply IH, Hg' | intros chunks; apply keeps_ret; apply _].
    + reflexivity.
Qed.

Lemma getStream_generator (env : Env) (query : string)
    (sessionId : option string) (w w1 : World) (g : Generator) :
  getStream env query sessionId w = (Ok g, w1) ->
  exists s, g = GenSuspendedStart s (effectiveSessionId env sessionId)
                  (HumanMessage query).
Proof.
  unfold getStream, bind at 1.
  destruct (ensureInitialized env w) as [[[] | e] w0]; [| done].
  unfold try_catch, getStream_try. cbn zeta. unfold bind at 1.
  destruct (open_stream _ _ _ _ _ w0) as [[s | e] w'].
  - intros [= <- _]. by exists s.
  - unfold getStream_catch, bind, log, throw. done.
Qed.

(** X6: whatever its outcome, a request only appends.  [processQuery]
    leaves the model configuration as it is, keeps a ready agent ready,
    only adds entries at the end of the log, only adds turns at the end of
    its own session's stored turns, and leaves the stored turns of every
    other session unchanged.  [getStream] stores no turn at all, and any
    consumer of the stream it returns, however many chunks it takes, changes
    the world within the same limits. *)
Theorem requests_only_append (env : Env) (query : string)
    (sessionId : option string) (w : World) :
  world_grows (effectiveSessionId env sessionId) w
    (processQuery env query sessionId w).2
  /\ world_logs w (getStream env query sessionId w).2
  /\ forall g w1 k,
       getStream env query sessionId w = (Ok g, w1) ->
       world_grows (effectiveSessionId env sessionId) w (consume k g w1).2.
Proof.
  split_and!.
  - apply processQuery_keeps.
  - apply getStream_keeps.
  - intros g w1 k Hrun.
    destruct (getStream_generator env query sessionId w w1 g Hrun) as [s ->].
    pose proof (getStream_keeps env query sessionId w) as Hlogs.
    rewrite Hrun in Hlogs. cbn in Hlogs.
    etrans; [apply world_logs_grows, Hlogs |]. by apply consume_keeps.
Qed.

Lemma requests_only_append_witness :
  world_grows "s1" example_world
    (consume 5 (GenSuspendedStart broken_stream "s1" (HumanMessage "hi"))
       (getStream (env_streaming broken_stream) "hi" (Some "s1"%string)
          example_world).2).2.
Proof.
  apply (proj2 (proj2 (requests_only_append (env_streaming broken_stream) "hi"
                         (Some "s1"%string) example_world))
           (GenSuspendedStart broken_stream "s1" (HumanMessage "hi"))
           (getStream (env_streaming broken_stream) "hi" (Some "s1"%string)
              example_world).2 5).
  reflexivity.
Defined.

(** ** Initialisation *)

Lemma start_or_fail (env : Env) (w : World) :
  can_start env w
  \/ (isInitialized w = false /\ exists e, init_fails env e).
Proof.
  unfold can_start, init_fails.
  destruct (isInitialized w); [by left; left |].
  destruct (initChatModel env) as [[] | e] eqn:Hllm.
  - destruct (createAgent env) as [[] | e] eqn:Hagent.
    + left. by right.
    + right. split; [done |]. exists e. by right.
  - right. split; [done |]. exists e. by left.
Qed.

Lemma start_and_fail_exclusive (env : Env) (w : World) (e : Error) :
  can_start env w -> isInitialized w = false -> init_fails env e -> False.
Proof.
  intros [Hready | [Hllm Hagent]] Hinit [Hfail | [_ Hfail]]; congruence.
Qed.

Lemma initializeAgent_success (env : Env) (w : World) :
  initChatModel env = Ok tt -> createAgent env = Ok tt ->
  exists w',
    initializeAgent env w = (Ok tt, w')
    /\ isReady w' = true
    /\ sessionMemory w' = sessionMemory w
    /\ modelConfig w' = modelConfig w
    /\ logged w' = logged w ++ init_entries (modelConfig w).
Proof.
  intros Hllm Hagent.
  unfold initializeAgent, try_catch, bind, read_modelConfig, lift, log,
    set_initialized. cbn. rewrite Hllm, Hagent. cbn.
  eexists. split_and!; [reflexivity | done | done | done |]. cbn.
  by rewrite <- !app_assoc.
Qed.

Lemma initializeAgent_failure (env : Env) (w : World) (e : Error) :
  init_fails env e ->
  exists w',
    initializeAgent env w = (Throw e, w')
    /\ isReady w' = isReady w
    /\ sessionMemory w' = sessionMemory w
    /\ modelConfig w' = modelConfig w
    /\ last (logged w') = Some (init_failure_entry e).
Proof.
  intros [Hllm | [Hllm Hagent]];
    unfold initializeAgent, try_catch, bind, read_modelConfig, lift, log,
      set_initialized, throw; cbn; rewrite Hllm; cbn; [| rewrite Hagent; cbn];
    (eexists; split_and!; [reflexivity | done | done | done |]; cbn;
     apply last_snoc).
Qed.

(** X7: [initializeAgent] makes the agent ready exactly when both
    [initChatModel] and [createAgent] succeed, logging its three steps.  When
    one of them throws, the error is logged and rethrown as it is and the
    agent's readiness is what it was.  In both cases the model configuration
    and every stored turn are untouched. *)
Theorem initializeAgent_outcome (env : Env) (w : World) :
  (initChatModel env = Ok tt -> createAgent env = Ok tt ->
   exists w',
     initializeAgent env w = (Ok tt, w')
     /\ isReady w' = true
     /\ sessionMemory w' = sessionMemory w
     /\ modelConfig w' = modelConfig w
     /\ logged w' = logged w ++ init_entries (modelConfig w))
  /\ (forall e, init_fails env e ->
      exists w',
        initializeAgent env w = (Throw e, w')
        /\ isReady w' = isReady w
        /\ sessionMemory w' = sessionMemory w
        /\ modelConfig w' = modelConfig w
        /\ last (logged w') = Some (init_failure_entry e)).
Proof.
  split.
  - apply initializeAgent_success.
  - intros e. apply initializeAgent_failure.
Qed.

Lemma initializeAgent_outcome_witness :
  exists w',
    initializeAgent (env_unreachable boom) fresh_world = (Throw boom, w')
    /\ isReady w' = false
    /\ sessionMemory w' = sessionMemory fresh_world
    /\ modelConfig w' = example_config
    /\ last (logged w') = Some (init_failure_entry boom).
Proof.
  apply (proj2 (initializeAgent_outcome (env_unreachable boom) fresh_world) boom).
  left. reflexivity.
Defined.

Lemma ensureInitialized_fails (env : Env) (w : World) (e : Error) :
  isInitialized w = false ->
  init_fails env e ->
  exists w0,
    ensureInitialized env w = (Throw e, w0)
    /\ isInitialized w0 = false
    /\ sessionMemory w0 = sessionMemory w
    /\ last (logged w0) = Some (init_failure_entry e).
Proof.
  intros Hinit Hfail. unfold ensureInitialized. rewrite Hinit.
  destruct (initializeAgent_failure env w e Hfail)
    as (w0 & Hrun & Hready & Hmem & _ & Hlast).
  exists w0. unfold isReady in Hready. split_and!; [done | congruence | done | done].
Qed.

(** ** The buffered path, outcome by outcome *)

Lemma processQuery_success_full (env : Env) (query : string)
    (sessionId : option string) (w : World) (s : Stream) :
  can_start env w ->
  agent_stream env (request_messages env query sessionId w) = Ok s ->
  stream_error s = None ->
  exists w',
    processQuery env query sessionId w = (Ok (full_text s), w')
    /\ history (effectiveSessionId env sessionId) w'
       = history (effectiveSessionId env sessionId) w
         ++ HumanMessage query :: option_list (last_text_message s)
    /\ isReady w' = true
    /\ last (logged w')
       = Some (response_entry (full_text s) (effectiveSessionId env sessionId)
                 (length (history (effectiveSessionId env sessionId) w'))).
Proof.
  intros Hstart Hs Hdone.
  destruct (ensureInitialized_ok env w Hstart)
    as (w0 & Hinit & Hready0 & Hmem & _).
  pose proof (same_histories_init w w0 Hmem) as Hsame0.
  destruct (open_stream_spec env "Processing legal query with session" query
              (effectiveSessionId env sessionId) (HumanMessage query) w0)
    as (w1 & Hopen & Hsame1 & _).
  assert (Hready1 : isInitialized w1 = true).
  { pose proof (open_stream_keeps env "Processing legal query with session"
                  query (effectiveSessionId env sessionId) (HumanMessage query)
                  w0) as (_ & Hready & _).
    rewrite Hopen in Hready. by apply Hready. }
  rewrite (Hsame0 (effectiveSessionId env sessionId)) in Hopen.
  fold (request_messages env query sessionId w) in Hopen. rewrite Hs in Hopen.
  assert (Hbody : exists w',
    processQuery_try env query sessionId w0 = (Ok (full_text s), w')
    /\ history (effectiveSessionId env sessionId) w'
       = stored (effectiveSessionId env sessionId)
           (commit_assistant (effectiveSessionId env sessionId)
              (last_text_message s)
              (addMessage (effectiveSessionId env sessionId)
                 (HumanMessage query) (sessionMemory w1)))
    /\ isInitialized w' = isInitialized w1
    /\ last (logged w')
       = Some (response_entry (full_text s) (effectiveSessionId env sessionId)
                 (length (history (effectiveSessionId env sessionId) w')))).
  { unfold processQuery_try. cbn zeta. rewrite (bind_ok _ _ _ _ _ Hopen).
    unfold lift at 1. unfold bind at 1. rewrite collect_spec, Hdone.
    fold (full_text s). fold (last_text_message s).
    unfold bind, sessionMemory_addMessage, sessionMemory_getMessages, log, ret.
    cbn [fst snd].
    destruct (last_text_message s) as [m |]; eexists;
      (split; [reflexivity |]); unfold history; cbn;
      rewrite getMessages_stored, getMessages_result, last_snoc;
      split_and!; reflexivity. }
  destruct Hbody as (w' & Hbody & Hhist & Hready & Hlast).
  unfold processQuery. rewrite (bind_ok _ _ _ _ _ Hinit).
  rewrite (try_catch_ok _ _ _ _ _ Hbody).
  exists w'. split_and!; [reflexivity | | unfold isReady; congruence | exact Hlast].
  rewrite Hhist.
  pose proof (commit_history (effectiveSessionId env sessionId)
                (HumanMessage query) (last_text_message s) w1) as [Hmine _].
  unfold commit_assistant. rewrite Hmine. by rewrite Hsame1, Hsame0.
Qed.

Lemma processQuery_init_failure (env : Env) (query : string)
    (sessionId : option string) (w : World) (e : Error) :
  isInitialized w = false ->
  init_fails env e ->
  exists w',
    processQuery env query sessionId w = (Throw e, w')
    /\ same_histories w w'
    /\ isReady w' = false
    /\ last (logged w') = Some (init_failure_entry e).
Proof.
  intros Hinit Hfail.
  destruct (ensureInitialized_fails env w e Hinit Hfail)
    as (w0 & Hrun & Hready & Hmem & Hlast).
  exists w0. split_and!; [| by apply same_histories_init | done | done].
  unfold processQuery. by apply bind_throw.
Qed.

(** Every run of [processQuery] is one of three: the initialisation fails,
    the request fails, or the stream ends normally. *)
Lemma processQuery_cases (env : Env) (query : string)
    (sessionId : option string) (w : World) :
  (isInitialized w = false /\ exists e, init_fails env e)
  \/ (can_start env w
      /\ exists cause,
           request_fails env (request_messages env query sessionId w) cause)
  \/ (can_start env w
      /\ exists s,
           agent_stream env (request_messages env query sessionId w) = Ok s
           /\ stream_error s = None).
Proof.
  destruct (start_or_fail env w) as [Hstart | Hfail]; [| by left].
  right.
  destruct (agent_stream env (request_messages env query sessionId w))
    as [s | cause] eqn:Hs.
  - destruct (stream_error s) as [cause |] eqn:Herr.
    + left. split; [done |]. exists cause. right. by exists s.
    + right. split; [done |]. by exists s.
  - left. split; [done |]. exists cause. by left.
Qed.

(** X8: [processQuery] commits all or nothing.  When it returns a response,
    the model answered the trimmed history followed by the new user turn with
    a stream that ended normally, the response is the text accumulated from
    that stream, and the session's stored turns have grown by the user turn
    and the assistant turn, if any.  When it throws, for whatever reason, the
    stored turns of every session are what they were. *)
Theorem processQuery_all_or_nothing (env : Env) (query : string)
    (sessionId : option string) (w w' : World) (r : Result string) :
  processQuery env query sessionId w = (r, w') ->
  match r with
  | Ok response =>
      exists s,
        agent_stream env (request_messages env query sessionId w) = Ok s
        /\ stream_error s = None
        /\ response = full_text s
        /\ history (effectiveSessionId env sessionId) w'
           = history (effectiveSessionId env sessionId) w
             ++ HumanMessage query :: option_list (last_text_message s)
  | Throw _ => same_histories w w'
  end.
Proof.
  intros Hrun.
  destruct (processQuery_cases env query sessionId w)
    as [[Hinit [e Hfail]] | [[Hstart [cause Hfail]] | [Hstart (s & Hs & Herr)]]].
  - destruct (processQuery_init_failure env query sessionId w e Hinit Hfail)
      as (w0 & Hrun0 & Hsame & _).
    rewrite Hrun0 in Hrun. by injection Hrun as <- <-.
  - destruct (processQuery_failure env query sessionId w cause Hstart Hfail)
      as (w0 & Hrun0 & Hsame & _).
    rewrite Hrun0 in Hrun. by injection Hrun as <- <-.
  - destruct (processQuery_success_full env query sessionId w s Hstart Hs Herr)
      as (w0 & Hrun0 & Hmine & _).
    rewrite Hrun0 in Hrun. injection Hrun as <- <-. by exists s.
Qed.

Lemma processQuery_all_or_nothing_witness :
  same_histories example_world
    (processQuery (env_streaming broken_stream) "hi" (Some "s1"%string)
       example_world).2.
Proof.
  apply (processQuery_all_or_nothing (env_streaming broken_stream) "hi"
           (Some "s1"%string) example_world
           (processQuery (env_streaming broken_stream) "hi" (Some "s1"%string)
              example_world).2
           (Throw {| message := "クエリ処理に失敗しました: boom" |})).
  reflexivity.
Defined.

(** X9: when [processQuery] returns a response, the agent is ready and the
    last log entry is the success entry, whose [responseLength] is the length
    of the returned response in UTF-16 code units and whose [messageCount] is
    the number of turns then stored for the session. *)
Theorem processQuery_success_entry (env : Env) (query : string)
    (sessionId : option string) (w w' : World) (response : string) :
  processQuery env query sessionId w = (Ok response, w') ->
  isReady w' = true
  /\ last (logged w')
     = Some (response_entry response (effectiveSessionId env sessionId)
               (length (history (effectiveSessionId env sessionId) w'))).
Proof.
  intros Hrun.
  destruct (processQuery_cases env query sessionId w)
    as [[Hinit [e Hfail]] | [[Hstart [cause Hfail]] | [Hstart (s & Hs & Herr)]]].
  - destruct (processQuery_init_failure env query sessionId w e Hinit Hfail)
      as (w0 & Hrun0 & _).
    rewrite Hrun0 in Hrun. discriminate Hrun.
  - destruct (processQuery_failure env query sessionId w cause Hstart Hfail)
      as (w0 & Hrun0 & _).
    rewrite Hrun0 in Hrun. discriminate Hrun.
  - destruct (processQuery_success_full env query sessionId w s Hstart Hs Herr)
      as (w0 & Hrun0 & _ & Hready & Hlast).
    rewrite Hrun0 in Hrun. injection Hrun as <- <-. done.
Qed.

Lemma processQuery_success_entry_witness :
  isReady (processQuery (env_streaming japanese_stream) "hi"
             (Some "s1"%string) fresh_world).2 = true
  /\ last (logged (processQuery (env_streaming japanese_stream) "hi"
                     (Some "s1"%string) fresh_world).2)
     = Some {| level := LevelInfo; text := "クエリが正常に処理されました";
               meta := [("responseLength"%string, LNum 3);
                        ("sessionId"%string, LStr "s1");
                        ("messageCount"%string, LNum 2)] |}.
Proof.
  apply (processQuery_success_entry (env_streaming japanese_stream) "hi"
           (Some "s1"%string) fresh_world
           (processQuery (env_streaming japanese_stream) "hi"
              (Some "s1"%string) fresh_world).2 "窃盗罪").
  reflexivity.
Defined.

Lemma processQuery_ok_inv (env : Env) (query : string)
    (sessionId : option string) (w w' : World) (response : string) :
  processQuery env query sessionId w = (Ok response, w') ->
  exists s,
    agent_stream env (request_messages env query sessionId w) = Ok s
    /\ stream_error s = None
    /\ response = full_text s
    /\ history (effectiveSessionId env sessionId) w'
       = history (effectiveSessionId env sessionId) w
         ++ HumanMessage query :: option_list (last_text_message s)
    /\ isInitialized w' = true.
Proof.
  intros Hrun.
  destruct (processQuery_cases env query sessionId w)
    as [[Hinit [e Hfail]] | [[Hstart [cause Hfail]] | [Hstart (s & Hs & Herr)]]].
  - destruct (processQuery_init_failure env query sessionId w e Hinit Hfail)
      as (w0 & Hrun0 & _).
    rewrite Hrun0 in Hrun. discriminate Hrun.
  - destruct (processQuery_failure env query sessionId w cause Hstart Hfail)
      as (w0 & Hrun0 & _).
    rewrite Hrun0 in Hrun. discriminate Hrun.
  - destruct (processQuery_success_full env query sessionId w s Hstart Hs Herr)
      as (w0 & Hrun0 & Hmine & Hready & _).
    rewrite Hrun0 in Hrun. injection Hrun as <- <-. by exists s.
Qed.

Lemma effectiveSessionId_given (env : Env) (id : string) :
  id <> ""%string -> effectiveSessionId env (Some id) = id.
Proof. by destruct id. Qed.

(** X10: two requests made one after the other on the same session build
    one conversation.  If both return, the second request's model input is
    the trimmed history that already holds the first exchange, followed by
    the second user turn, and afterwards the session stores the earlier
    turns, then the first exchange, then the second, in that order. *)
Theorem sequential_requests_accumulate (env1 env2 : Env)
    (query1 query2 id : string) (w w1 w2 : World) (response1 response2 : string) :
  id <> ""%string ->
  processQuery env1 query1 (Some id) w = (Ok response1, w1) ->
  processQuery env2 query2 (Some id) w1 = (Ok response2, w2) ->
  exists s1 s2,
    agent_stream env1 (trimMessages (history id w) ++ [HumanMessage query1])
    = Ok s1
    /\ agent_stream env2
         (trimMessages (history id w ++ HumanMessage query1
                          :: option_list (last_text_message s1))
          ++ [HumanMessage query2])
       = Ok s2
    /\ response1 = full_text s1
    /\ response2 = full_text s2
    /\ history id w2
       = history id w
         ++ (HumanMessage query1 :: option_list (last_text_message s1))
         ++ HumanMessage query2 :: option_list (last_text_message s2).
Proof.
  intros Hid Hrun1 Hrun2.
  apply processQuery_ok_inv in Hrun1 as (s1 & Hs1 & _ & Hr1 & Hh1 & _).
  apply processQuery_ok_inv in Hrun2 as (s2 & Hs2 & _ & Hr2 & Hh2 & _).
  unfold request_messages in Hs1, Hs2.
  rewrite (effectiveSessionId_given env1 id Hid) in Hs1, Hh1.
  rewrite (effectiveSessionId_given env2 id Hid) in Hs2, Hh2.
  rewrite Hh1 in Hs2, Hh2.
  exists s1, s2. split_and!; [done | done | done | done |].
  by rewrite Hh2, <- app_assoc.
Qed.

Lemma sequential_requests_accumulate_witness :
  exists s1 s2,
    agent_stream (env_streaming hello_stream)
      (trimMessages (history "s1" example_world) ++ [HumanMessage "hi"])
    = Ok s1
    /\ agent_stream (env_streaming blocks_stream)
         (trimMessages (history "s1" example_world ++ HumanMessage "hi"
                          :: option_list (last_text_message s1))
          ++ [HumanMessage "again"])
       = Ok s2
    /\ "Hello"%string = full_text s1
    /\ ""%string = full_text s2
    /\ history "s1"
         (processQuery (env_streaming blocks_stream) "again" (Some "s1"%string)
            (processQuery (env_streaming hello_stream) "hi" (Some "s1"%string)
               example_world).2).2
       = history "s1" example_world
         ++ (HumanMessage "hi" :: option_list (last_text_message s1))
         ++ HumanMessage "again" :: option_list (last_text_message s2).
Proof.
  apply (sequential_requests_accumulate (env_streaming hello_stream)
           (env_streaming blocks_stream) "hi" "again" "s1" example_world
           (processQuery (env_streaming hello_stream) "hi" (Some "s1"%string)
              example_world).2).
  - discriminate.
  - reflexivity.
  - reflexivity.
Defined.

(** ** What the model is asked *)

Lemma bind_ext {A B} (m : M A) (k1 k2 : A -> M B) (w : World) :
  (forall a w', m w = (Ok a, w') -> k1 a w' = k2 a w') ->
  bind m k1 w = bind m k2 w.
Proof.
  intros Hk. unfold bind. destruct (m w) as [[a | e] w']; [by apply Hk | done].
Qed.

Lemma try_catch_body {A} (m1 m2 : M A) (handler : Error -> M A) (w : World) :
  m1 w = m2 w -> try_catch m1 handler w = try_catch m2 handler w.
Proof. intros Hm. unfold try_catch. by rewrite Hm. Qed.

Lemma open_stream_model (env : Env) (model : list BaseMessage -> Result Stream)
    (infoText query sessionId : string) (user : BaseMessage) (w : World) :
  model (trimMessages (history sessionId w) ++ [user])
  = agent_stream env (trimMessages (history sessionId w) ++ [user]) ->
  open_stream (with_model env model) infoText query sessionId user w
  = open_stream env infoText query sessionId user w.
Proof.
  intros Hagree.
  unfold open_stream, bind, log, sessionMemory_getMessages, lift. cbn.
  rewrite getMessages_result. unfold history in Hagree. by rewrite Hagree.
Qed.

Lemma request_messages_shape (env : Env) (query : string)
    (sessionId : option string) (w : World) :
  last (request_messages env query sessionId w) = Some (HumanMessage query)
  /\ length (request_messages env query sessionId w)
     <= S maxContextMessages
        + length (List.filter is_system
                    (history (effectiveSessionId env sessionId) w)).
Proof.
  unfold request_messages. split; [apply last_snoc |].
  rewrite length_app. change (length [HumanMessage query]) with 1.
  destruct (trimMessages_cases (history (effectiveSessionId env sessionId) w))
    as [[Hle ->] | [Hgt ->]].
  - lia.
  - rewrite length_app, length_drop. lia.
Qed.

(** X11: a request consults the model once, on one list: the outcome of
    [processQuery] and of [getStream] is the same for any two models that
    give the same answer to the trimmed history followed by the new user
    turn.  That list ends with the user turn and holds at most eleven turns
    plus the system turns of the stored history. *)
Theorem request_depends_on_one_model_call (env : Env) (query : string)
    (sessionId : option string) (w : World) :
  (forall model : list BaseMessage -> Result Stream,
     model (request_messages env query sessionId w)
     = agent_stream env (request_messages env query sessionId w) ->
     processQuery (with_model env model) query sessionId w
     = processQuery env query sessionId w
     /\ getStream (with_model env model) query sessionId w
        = getStream env query sessionId w)
  /\ last (request_messages env query sessionId w) = Some (HumanMessage query)
  /\ length (request_messages env query sessionId w)
     <= S maxContextMessages
        + length (List.filter is_system
                    (history (effectiveSessionId env sessionId) w)).
Proof.
  split; [| apply request_messages_shape]. intros model Hagree.
  assert (Hopen : forall infoText w0,
    ensureInitialized env w = (Ok tt, w0) ->
    open_stream (with_model env model) infoText query
      (effectiveSessionId env sessionId) (HumanMessage query) w0
    = open_stream env infoText query (effectiveSessionId env sessionId)
        (HumanMessage query) w0).
  { intros infoText w0 Hinit. apply open_stream_model.
    pose proof (ensureInitialized_keeps env w) as (_ & _ & _ & Hsame).
    rewrite Hinit in Hsame. cbn in Hsame.
    rewrite (Hsame (effectiveSessionId env sessionId)). exact Hagree. }
  split.
  - unfold processQuery.
    change (ensureInitialized (with_model env model))
      with (ensureInitialized env).
    apply bind_ext. intros [] w0 Hinit. apply try_catch_body.
    unfold processQuery_try. cbn zeta.
    change (effectiveSessionId (with_model env model) sessionId)
      with (effectiveSessionId env sessionId).
    unfold bind at 1 7. by rewrite (Hopen _ w0 Hinit).
  - unfold getStream.
    change (ensureInitialized (with_model env model))
      with (ensureInitialized env).
    apply bind_ext. intros [] w0 Hinit. apply try_catch_body.
    unfold getStream_try. cbn zeta.
    change (effectiveSessionId (with_model env model) sessionId)
      with (effectiveSessionId env sessionId).
    unfold bind. by rewrite (Hopen _ w0 Hinit).
Qed.

Lemma request_depends_on_one_model_call_witness :
  processQuery (with_model (env_streaming hello_stream) picky_model) "hi"
    (Some "s1"%string) example_world
  = processQuery (env_streaming hello_stream) "hi" (Some "s1"%string)
      example_world.
Proof.
  apply (proj1 (request_depends_on_one_model_call (env_streaming hello_stream)
                  "hi" (Some "s1"%string) example_world) picky_model).
  reflexivity.
Defined.

(** ** What the monitoring generator logs *)

Lemma drain_done_log (stream : Stream) :
  forall (k : nat) (sessionId : string) (acc : string * option BaseMessage)
         (w : World),
    stream_error stream = None ->
    length (stream_chunks stream) <= k ->
    exists w',
      drain k stream sessionId acc w = (Ok (stream_chunks stream), w')
      /\ logged w'
         = logged w
           ++ [completed_entry sessionId
                 (fst (fold_left (fun a c => accumulate c a)
                         (stream_chunks stream) acc))].
Proof.
  induction stream as [| chunk rest IH | e]; intros k sessionId acc w Herr Hk;
    cbn in Herr, Hk; [| | done].
  - unfold drain, monitor_resume, bind, sessionMemory_addMessage, log, ret.
    cbn. destruct (snd acc) as [m |]; eexists; (split; reflexivity).
  - rewrite drain_yield. destruct k as [| k]; [lia |].
    unfold bind. rewrite consume_resume.
    destruct (IH k sessionId (accumulate chunk acc) w Herr) as (w' & -> & Hlog);
      [lia |].
    exists w'. split; [reflexivity | exact Hlog].
Qed.

(** X12: the monitoring generator logs once, at its end.  A consumer that
    iterates into the failure of the model stream finds, after the entries
    present when the stream was handed out, exactly one error entry, with the
    cause's message and the session identifier.  One that iterates a stream
    to its normal end finds exactly one information entry, whose
    [responseLength] is the length of the accumulated text in UTF-16 code
    units.  One that takes some chunks and leaves finds nothing logged. *)
Theorem monitorStream_log (s : Stream) (sessionId : string)
    (user : BaseMessage) (w : World) (k : nat) :
  (forall cause,
     stream_error s = Some cause -> length (stream_chunks s) < k ->
     exists w',
       consume k (GenSuspendedStart s sessionId user) w = (Throw cause, w')
       /\ logged w' = logged w ++ [monitor_entry sessionId cause])
  /\ (stream_error s = None -> length (stream_chunks s) < k ->
      exists w',
        consume k (GenSuspendedStart s sessionId user) w
        = (Ok (stream_chunks s), w')
        /\ logged w' = logged w ++ [completed_entry sessionId (full_text s)])
  /\ (k <= length (stream_chunks s) ->
      exists w',
        consume k (GenSuspendedStart s sessionId user) w
        = (Ok (take k (stream_chunks s)), w')
        /\ logged w' = logged w).
Proof.
  split_and!.
  - intros cause Herr Hk. destruct k as [| k]; [lia |]. rewrite consume_start.
    destruct (drain_failure s k sessionId (""%string, None)
                (with_memory (addMessage sessionId user (sessionMemory w)) w)
                cause Herr) as (w' & Hrun & _ & Hlog); [lia |].
    by exists w'.
  - intros Herr Hk. destruct k as [| k]; [lia |]. rewrite consume_start.
    destruct (drain_done_log s k sessionId (""%string, None)
                (with_memory (addMessage sessionId user (sessionMemory w)) w)
                Herr) as (w' & Hrun & Hlog); [lia |].
    by exists w'.
  - intros Hk. destruct k as [| k].
    + by exists w.
    + rewrite consume_start, drain_partial by done. by eexists.
Qed.

Lemma monitorStream_log_witness :
  exists w',
    consume 2 (GenSuspendedStart japanese_stream "s1" (HumanMessage "hi"))
      example_world = (Ok (stream_chunks japanese_stream), w')
    /\ logged w'
       = logged example_world
         ++ [{| level := LevelInfo;
                text := "Stream completed and messages saved";
                meta := [("sessionId"%string, LStr "s1");
                         ("responseLength"%string, LNum 3)] |}].
Proof.
  apply (proj1 (proj2 (monitorStream_log japanese_stream "s1"
                         (HumanMessage "hi") example_world 2))).
  - reflexivity.
  - simpl. lia.
Defined.

(** ** What the loop accumulates *)

Lemma string_app_assoc (a b c : string) : (a +:+ b) +:+ c = a +:+ (b +:+ c).
Proof.
  induction a as [| x a IH]; [done |].
  change (String x ((a +:+ b) +:+ c) = String x (a +:+ (b +:+ c))).
  by rewrite IH.
Qed.

Lemma string_app_nil_r (a : string) : a +:+ "" = a.
Proof.
  induction a as [| x a IH]; [done |].
  change (String x (a +:+ "") = String x a). by rewrite IH.
Qed.

Lemma chunk_text_content (chunk : Chunk) (fragment : string) (m : BaseMessage) :
  chunk_text chunk = Some (fragment, m) -> content m = ContentString fragment.
Proof.
  destruct chunk as [[| [| m' |] elems] |]; cbn; try done.
  destruct (content m') as [t | blocks] eqn:Hc; [| done].
  by intros [= <- <-].
Qed.

Lemma texts_of_cons (chunk : Chunk) (chunks : list Chunk) :
  texts_of (chunk :: chunks)
  = match chunk_text chunk with
    | Some (fragment, _) => fragment :: texts_of chunks
    | None => texts_of chunks
    end.
Proof. unfold texts_of. cbn. by destruct (chunk_text chunk) as [[t m] |]. Qed.

Lemma messages_of_cons (chunk : Chunk) (chunks : list Chunk) :
  messages_of (chunk :: chunks)
  = match chunk_text chunk with
    | Some (_, m) => m :: messages_of chunks
    | None => messages_of chunks
    end.
Proof. unfold messages_of. cbn. by destruct (chunk_text chunk) as [[t m] |]. Qed.

Lemma last_cons_default {A} (x : A) (l : list A) :
  last (x :: l) = Some (default x (last l)).
Proof.
  revert x. induction l as [| y l IH]; intros x; [done |].
  change (last (x :: y :: l)) with (last (y :: l)). by rewrite (IH y).
Qed.

Lemma fold_accumulate (chunks : list Chunk) :
  forall (response : string) (ai : option BaseMessage),
    fold_left (fun a c => accumulate c a) chunks (response, ai)
    = (response +:+ concat_texts (texts_of chunks),
       match last (messages_of chunks) with
       | Some m => Some m
       | None => ai
       end).
Proof.
  induction chunks as [| chunk chunks IH]; intros response ai.
  - cbn. by rewrite string_app_nil_r.
  - cbn [fold_left]. unfold accumulate at 2.
    rewrite texts_of_cons, messages_of_cons.
    destruct (chunk_text chunk) as [[fragment m] |]; cbn [fst snd].
    + rewrite IH. cbn [concat_texts foldr]. rewrite string_app_assoc.
      f_equal. rewrite last_cons_default.
      by destruct (last (messages_of chunks)).
    + apply IH.
Qed.

Lemma messages_of_nil_texts (chunks : list Chunk) :
  messages_of chunks = [] -> texts_of chunks = [].
Proof.
  induction chunks as [| chunk chunks IH]; [done |].
  rewrite texts_of_cons, messages_of_cons.
  destruct (chunk_text chunk) as [[t m] |]; [done | exact IH].
Qed.

Lemma last_fragment_suffix (chunks : list Chunk) (m : BaseMessage) :
  last (messages_of chunks) = Some m ->
  exists before fragment,
    content m = ContentString fragment
    /\ concat_texts (texts_of chunks) = before +:+ fragment.
Proof.
  induction chunks as [| chunk chunks IH]; [done |].
  rewrite texts_of_cons, messages_of_cons.
  destruct (chunk_text chunk) as [[fragment m'] |] eqn:Hchunk; [| exact IH].
  destruct (messages_of chunks) as [| m2 rest] eqn:Hrest.
  - intros [= <-]. exists ""%string, fragment.
    split; [by eapply chunk_text_content |].
    rewrite (messages_of_nil_texts chunks Hrest).
    cbn [concat_texts foldr]. by rewrite string_app_nil_r.
  - change (last (m' :: m2 :: rest)) with (last (m2 :: rest)). intros Hlast.
    destruct (IH Hlast) as (before & frag & Hc & Hcat).
    exists (fragment +:+ before), frag. split; [done |].
    cbn [concat_texts foldr]. fold (concat_texts (texts_of chunks)).
    by rewrite Hcat, string_app_assoc.
Qed.

(** X13: the loop over the model stream returns the string contents of the
    qualifying chunks concatenated in order of arrival, and keeps as
    assistant turn the message of the last qualifying chunk; a stream that
    throws makes the loop throw the same error.  The content of the kept
    message is therefore only the last fragment of the response: the response
    ends with it. *)
Theorem collect_accumulates (s : Stream) :
  collect s (""%string, None)
  = match stream_error s with
    | Some e => Throw e
    | None => Ok (concat_texts (texts_of (stream_chunks s)),
                  last (messages_of (stream_chunks s)))
    end
  /\ full_text s = concat_texts (texts_of (stream_chunks s))
  /\ last_text_message s = last (messages_of (stream_chunks s))
  /\ forall m,
       last_text_message s = Some m ->
       exists before fragment,
         content m = ContentString fragment
         /\ full_text s = before +:+ fragment.
Proof.
  assert (Hfold : fold_left (fun a c => accumulate c a) (stream_chunks s)
                    (""%string, None)
                  = (concat_texts (texts_of (stream_chunks s)),
                     last (messages_of (stream_chunks s)))).
  { rewrite fold_accumulate. cbn [append].
    by destruct (last (messages_of (stream_chunks s))). }
  assert (Htext : full_text s = concat_texts (texts_of (stream_chunks s))).
  { unfold full_text. by rewrite Hfold. }
  assert (Hai : last_text_message s = last (messages_of (stream_chunks s))).
  { unfold last_text_message. by rewrite Hfold. }
  split_and!; [| exact Htext | exact Hai |].
  - rewrite collect_spec, Hfold. done.
  - intros m Hm. rewrite Hai in Hm. rewrite Htext.
    by apply last_fragment_suffix.
Qed.

Lemma collect_accumulates_witness :
  exists before fragment,
    content (turn MAi "lo") = ContentString fragment
    /\ full_text hello_stream = before +:+ fragment.
Proof.
  apply (proj2 (proj2 (proj2 (collect_accumulates hello_stream)))).
  reflexivity.
Defined.

(** ** The base address exported for Ollama *)

Lemma string_app_cons (c : ascii) (a b : string) :
  String c a +:+ b = String c (a +:+ b).
Proof. reflexivity. Qed.

Lemma prefix_split (pattern s : string) :
  String.prefix pattern s = true ->
  s = pattern +:+ string_drop (String.length pattern) s.
Proof.
  revert s. induction pattern as [| c pattern IH]; intros s; [done |].
  destruct s as [| d s]; [done |]. cbn [String.prefix].
  destruct (ascii_dec c d) as [<- | _]; [| done].
  intros Hp. rewrite string_app_cons. cbn [String.length string_drop].
  by rewrite <- (IH s Hp).
Qed.

Lemma prefix_of_app (pattern after : string) :
  String.prefix pattern (pattern +:+ after) = true.
Proof.
  induction pattern as [| c pattern IH]; [by destruct after |].
  rewrite string_app_cons. cbn [String.prefix].
  by destruct (ascii_dec c c).
Qed.

Lemma replace_first_cases (pattern replacement s : string) :
  (exists before after,
     s = before +:+ pattern +:+ after
     /\ replace_first pattern replacement s = before +:+ replacement +:+ after
     /\ forall b a, s = b +:+ pattern +:+ a ->
                    String.length before <= String.length b)
  \/ ((forall b a, s <> b +:+ pattern +:+ a)
      /\ replace_first pattern replacement s = s).
Proof.
  induction s as [| c s IH].
  - cbn [replace_first]. destruct (String.prefix pattern "") eqn:Hp.
    + left. exists ""%string, (string_drop (String.length pattern) "").
      split_and!; [by apply prefix_split | done | intros; cbn; lia].
    + right. split; [| done]. intros [| x b] a Heq;
        [| by rewrite string_app_cons in Heq].
      change ("" +:+ pattern +:+ a) with (pattern +:+ a) in Heq.
      by rewrite Heq, prefix_of_app in Hp.
  - cbn [replace_first]. destruct (String.prefix pattern (String c s)) eqn:Hp.
    + left. exists ""%string, (string_drop (String.length pattern) (String c s)).
      split_and!; [by apply prefix_split | done | intros; cbn; lia].
    + assert (Hhead : forall a, String c s <> pattern +:+ a).
      { intros a Heq. by rewrite Heq, prefix_of_app in Hp. }
      destruct IH as [(before & after & Hs & Hr & Hmin) | [Hnone Hr]].
      * left. exists (String c before), after. split_and!.
        -- by rewrite string_app_cons, <- Hs.
        -- by rewrite string_app_cons, Hr.
        -- intros [| x b] a Heq; [by apply Hhead in Heq |].
           rewrite string_app_cons in Heq. injection Heq as _ Heq.
           specialize (Hmin b a Heq). cbn. lia.
      * right. split; [| by rewrite Hr].
        intros [| x b] a Heq; [by apply Hhead in Heq |].
        rewrite string_app_cons in Heq. injection Heq as _ Heq.
        by apply Hnone in Heq.
Qed.

(** X14: for the provider ["ollama"], [initializeAgent] exports the
    configured base address with its first ["/v1"] removed, wherever it
    stands, and unchanged when it holds no ["/v1"]; for any other provider
    it exports nothing. *)
Theorem ollamaBaseUrl_strips_first_v1 (cfg : ModelConfig) :
  (provider cfg <> "ollama"%string -> ollamaBaseUrl cfg = None)
  /\ (provider cfg = "ollama"%string ->
      (exists before after,
         baseUrl cfg = before +:+ "/v1" +:+ after
         /\ ollamaBaseUrl cfg = Some (before +:+ after)
         /\ forall b a, baseUrl cfg = b +:+ "/v1" +:+ a ->
                        String.length before <= String.length b)
      \/ ((forall b a, baseUrl cfg <> b +:+ "/v1" +:+ a)
          /\ ollamaBaseUrl cfg = Some (baseUrl cfg))).
Proof.
  unfold ollamaBaseUrl. split.
  - intros Hne. by apply String.eqb_neq in Hne as ->.
  - intros ->. cbn [String.eqb Ascii.eqb Bool.eqb].
    destruct (replace_first_cases "/v1" "" (baseUrl cfg))
      as [(before & after & Hs & Hr & Hmin) | [Hnone Hr]].
    + left. exists before, after. split_and!; [done | by rewrite Hr | done].
    + right. split; [done | by rewrite Hr].
Qed.

Lemma ollamaBaseUrl_strips_first_v1_witness :
  (exists before after,
     baseUrl example_config = before +:+ "/v1" +:+ after
     /\ ollamaBaseUrl example_config = Some (before +:+ after)
     /\ forall b a, baseUrl example_config = b +:+ "/v1" +:+ a ->
                    String.length before <= String.length b)
  \/ ((forall b a, baseUrl example_config <> b +:+ "/v1" +:+ a)
      /\ ollamaBaseUrl example_config = Some (baseUrl example_config)).
Proof.
  apply (proj2 (ollamaBaseUrl_strips_first_v1 example_config)).
  reflexivity.
Defined.

(** ** The demonstration script *)

Lemma print_stream_spec (stream : Stream) (out : list Demo.Output) :
  exists printed,
    Demo.print_stream stream out
    = (match stream_error stream with
       | Some e => Throw e
       | None => Ok tt
       end, out ++ printed)
    /\ Demo.written printed = texts_of (stream_chunks stream)
    /\ Forall (fun o => exists t, o = Demo.StdoutWrite t) printed.
Proof.
  revert out. induction stream as [| chunk rest IH | e]; intros out.
  - exists []. by rewrite app_nil_r.
  - cbn [Demo.print_stream stream_error stream_chunks].
    rewrite texts_of_cons. unfold Demo.dbind.
    destruct (chunk_text chunk) as [[fragment m] |].
    + cbn. destruct (IH (out ++ [Demo.StdoutWrite fragment]))
        as (printed & -> & Hw & Hall).
      exists (Demo.StdoutWrite fragment :: printed). split_and!.
      * by rewrite <- app_assoc.
      * cbn. by rewrite <- Hw.
      * constructor; [by eexists | done].
    + cbn. apply IH.
  - exists []. by rewrite app_nil_r.
Qed.

(** X15: the demonstration script never lets an error escape: [main] always
    returns normally.  Once the model is invoked, the text it writes to the
    standard output is the string content of the chunks received, in order
    of arrival, also when the stream fails half-way: what was written stays,
    and the last line is then the error instead of the closing line break. *)
Theorem demo_main_prints_what_arrives (env : Demo.Env)
    (out : list Demo.Output) :
  (exists printed, Demo.main env out = (Ok tt, out ++ printed))
  /\ forall s,
       Demo.initChatModel env = Ok tt ->
       Demo.createAgent env = Ok tt ->
       Demo.agent_stream env = Ok s ->
       exists printed,
         Demo.main env out = (Ok tt, out ++ printed)
         /\ Demo.written printed = texts_of (stream_chunks s)
         /\ last printed
            = Some match stream_error s with
                   | Some e => Demo.ConsoleError e
                   | None => Demo.ConsoleLog ""
                   end.
Proof.
  assert (Hrun : forall s,
    Demo.initChatModel env = Ok tt ->
    Demo.createAgent env = Ok tt ->
    Demo.agent_stream env = Ok s ->
    exists printed,
      Demo.main env out = (Ok tt, out ++ printed)
      /\ Demo.written printed = texts_of (stream_chunks s)
      /\ last printed
         = Some match stream_error s with
                | Some e => Demo.ConsoleError e
                | None => Demo.ConsoleLog ""
                end).
  { intros s Hllm Hagent Hs.
    unfold Demo.main, Demo.dtry, Demo.dbind, Demo.dlift, Demo.emit.
    rewrite Hllm, Hagent, Hs.
    match goal with
    | |- context [Demo.print_stream s ?o] =>
        destruct (print_stream_spec s o) as (printed & -> & Hw & Hall)
    end.
    assert (Hshape : forall final : Demo.Output,
      (forall t, final <> Demo.StdoutWrite t) ->
      Demo.written
        ([Demo.ConsoleLog "Initializing LLM...";
          Demo.ConsoleLog "LLM initialized, creating agent...";
          Demo.ConsoleLog "Agent created, invoking...";
          Demo.ConsoleLog "Agent Response:"] ++ printed ++ [final])
      = texts_of (stream_chunks s)
      /\ last ([Demo.ConsoleLog "Initializing LLM...";
                Demo.ConsoleLog "LLM initialized, creating agent...";
                Demo.ConsoleLog "Agent created, invoking...";
                Demo.ConsoleLog "Agent Response:"] ++ printed ++ [final])
         = Some final).
    { intros final Hfinal. split.
      - unfold Demo.written in *. rewrite !omap_app, Hw. cbn.
        destruct final as [line | t | e']; [| by specialize (Hfinal t) |];
          cbn; by rewrite app_nil_r.
      - by rewrite (assoc (++)), last_snoc. }
    destruct (stream_error s) as [e |].
    - exists ([Demo.ConsoleLog "Initializing LLM...";
               Demo.ConsoleLog "LLM initialized, creating agent...";
               Demo.ConsoleLog "Agent created, invoking...";
               Demo.ConsoleLog "Agent Response:"]
              ++ printed ++ [Demo.ConsoleError e]).
      split; [by rewrite <- !app_assoc | by apply Hshape].
    - exists ([Demo.ConsoleLog "Initializing LLM...";
               Demo.ConsoleLog "LLM initialized, creating agent...";
               Demo.ConsoleLog "Agent created, invoking...";
               Demo.ConsoleLog "Agent Response:"]
              ++ printed ++ [Demo.ConsoleLog ""]).
      split; [by rewrite <- !app_assoc | by apply Hshape]. }
  split; [| exact Hrun].
  destruct (Demo.initChatModel env) as [[] | e1] eqn:Hllm.
  - destruct (Demo.createAgent env) as [[] | e2] eqn:Hagent.
    + destruct (Demo.agent_stream env) as [s | e3] eqn:Hs.
      * destruct (Hrun s eq_refl eq_refl eq_refl) as (printed & Hmain & _).
        by exists printed.
      * unfold Demo.main, Demo.dtry, Demo.dbind, Demo.dlift, Demo.emit.
        rewrite Hllm, Hagent, Hs. eexists. by rewrite <- !app_assoc.
    + unfold Demo.main, Demo.dtry, Demo.dbind, Demo.dlift, Demo.emit.
      rewrite Hllm, Hagent. eexists. by rewrite <- !app_assoc.
  - unfold Demo.main, Demo.dtry, Demo.dbind, Demo.dlift, Demo.emit.
    rewrite Hllm. eexists. by rewrite <- !app_assoc.
Qed.

Lemma demo_main_prints_what_arrives_witness :
  exists printed,
    Demo.main (demo_streaming broken_stream) [] = (Ok tt, [] ++ printed)
    /\ Demo.written printed = ["Hel"%string]
    /\ last printed = Some (Demo.ConsoleError boom).
Proof.
  apply (proj2 (demo_main_prints_what_arrives (demo_streaming broken_stream) [])
           broken_stream); reflexivity.
Defined.

(** ** The streaming path, outcome by outcome *)

Lemma open_stream_ready (env : Env) (infoText query sessionId : string)
    (user : BaseMessage) (w w1 : World) (r : Result Stream) :
  open_stream env infoText query sessionId user w = (r, w1) ->
  isInitialized w = true -> isInitialized w1 = true.
Proof.
  intros Hopen.
  pose proof (open_stream_keeps env infoText query sessionId user w)
    as (_ & Hready & _).
  by rewrite Hopen in Hready.
Qed.

Lemma getStream_run (env : Env) (query : string) (sessionId : option string)
    (w : World) :
  can_start env w ->
  exists w1,
    isInitialized w1 = true
    /\ same_histories w w1
    /\ last (logged w1)
       = Some (request_entry "Processing legal query stream with session"
                 query (effectiveSessionId env sessionId))
    /\ getStream env query sessionId w
       = match agent_stream env (request_messages env query sessionId w) with
         | Ok s =>
             (Ok (GenSuspendedStart s (effectiveSessionId env sessionId)
                    (HumanMessage query)), w1)
         | Throw cause =>
             getStream_catch query cause w1
         end.
Proof.
  intros Hstart.
  destruct (ensureInitialized_ok env w Hstart)
    as (w0 & Hinit & Hready0 & Hmem & _).
  pose proof (same_histories_init w w0 Hmem) as Hsame0.
  destruct (open_stream_spec env "Processing legal query stream with session"
              query (effectiveSessionId env sessionId) (HumanMessage query) w0)
    as (w1 & Hopen & Hsame1 & Hlog1).
  pose proof (open_stream_ready _ _ _ _ _ _ _ _ Hopen Hready0) as Hready1.
  rewrite (Hsame0 (effectiveSessionId env sessionId)) in Hopen.
  fold (request_messages env query sessionId w) in Hopen.
  exists w1. split_and!; [done | by eapply same_histories_trans | |].
  - rewrite Hlog1. apply last_snoc.
  - unfold getStream. rewrite (bind_ok _ _ _ _ _ Hinit).
    unfold try_catch, getStream_try. cbn zeta. unfold bind at 1.
    rewrite Hopen.
    by destruct (agent_stream env (request_messages env query sessionId w)).
Qed.

(** X16: [getStream] hands out a stream exactly when the initialisation
    and the model invocation succeed, whether or not the model stream will
    fail later: the generator it returns is not started and holds the whole
    model stream, the agent is ready, and the last log entry is the request
    entry.  When it throws, either the initialisation failed and its error
    is rethrown as it is, or the model invocation threw and the error
    thrown carries the cause's message behind the stream prefix, the last
    log entry being the error entry with the whole query. *)
Theorem getStream_outcome (env : Env) (query : string)
    (sessionId : option string) (w w' : World) (r : Result Generator) :
  getStream env query sessionId w = (r, w') ->
  match r with
  | Ok g =>
      exists s,
        agent_stream env (request_messages env query sessionId w) = Ok s
        /\ g = GenSuspendedStart s (effectiveSessionId env sessionId)
                 (HumanMessage query)
        /\ isReady w' = true
        /\ last (logged w')
           = Some (request_entry "Processing legal query stream with session"
                     query (effectiveSessionId env sessionId))
  | Throw e =>
      (isInitialized w = false /\ init_fails env e
       /\ last (logged w') = Some (init_failure_entry e))
      \/ (exists cause,
            agent_stream env (request_messages env query sessionId w)
            = Throw cause
            /\ message e = "ストリーム処理に失敗しました: " +:+ message cause
            /\ last (logged w') = Some (stream_failure_entry query cause))
  end.
Proof.
  intros Hrun.
  destruct (start_or_fail env w) as [Hstart | [Hinit [e Hfail]]].
  - destruct (getStream_run env query sessionId w Hstart)
      as (w1 & Hready & _ & Hlast & Heq).
    rewrite Heq in Hrun.
    destruct (agent_stream env (request_messages env query sessionId w))
      as [s | cause].
    + injection Hrun as <- <-. by exists s.
    + unfold getStream_catch, bind, log, throw in Hrun. cbn in Hrun.
      injection Hrun as <- <-. right. exists cause.
      split_and!; [done | done |]. cbn. apply last_snoc.
  - destruct (ensureInitialized_fails env w e Hinit Hfail)
      as (w0 & Hrun0 & _ & _ & Hlast).
    unfold getStream in Hrun. rewrite (bind_throw _ _ _ _ _ Hrun0) in Hrun.
    injection Hrun as <- <-. by left.
Qed.

Lemma getStream_outcome_witness :
  exists s,
    agent_stream (env_streaming broken_stream)
      (request_messages (env_streaming broken_stream) "hi" (Some "s1"%string)
         example_world) = Ok s
    /\ GenSuspendedStart broken_stream "s1" (HumanMessage "hi")
       = GenSuspendedStart s "s1" (HumanMessage "hi")
    /\ isReady (getStream (env_streaming broken_stream) "hi" (Some "s1"%string)
                  example_world).2 = true
    /\ last (logged (getStream (env_streaming broken_stream) "hi"
                       (Some "s1"%string) example_world).2)
       = Some (request_entry "Processing legal query stream with session"
                 "hi" "s1").
Proof.
  apply (getStream_outcome (env_streaming broken_stream) "hi"
           (Some "s1"%string) example_world
           (getStream (env_streaming broken_stream) "hi" (Some "s1"%string)
              example_world).2
           (Ok (GenSuspendedStart broken_stream "s1" (HumanMessage "hi")))).
  reflexivity.
Defined.

(** ** Which array the trimmer returns *)




(** ** The query shown in the request entry *)


(** On a string of ASCII characters code units are bytes. *)
Lemma js_ascii_agree (n : nat) (s : string) :
  Forall (fun c => nat_of_ascii c < 128) (list_ascii_of_string s) ->
  js_length s = String.length s /\ js_take n s = String.substring 0 n s.
Proof.
  revert n. induction s as [| c s IH]; intros n Hall.
  - by destruct n.
  - cbn [list_ascii_of_string] in Hall. inversion Hall as [| ? ? Hc Hs]. subst.
    assert (Hu : units_of_byte c = 1).
    { unfold units_of_byte. cbn zeta.
      by destruct (Nat.ltb_spec (nat_of_ascii c) 128); [| lia]. }
    cbn [js_length js_take String.length]. rewrite Hu. split.
    + by rewrite (proj1 (IH 0 Hs)).
    + destruct n as [| n]; [done |]. cbn [Nat.leb String.substring].
      rewrite Nat.sub_succ, Nat.sub_0_r. by rewrite (proj2 (IH n Hs)).
Qed.

Example js_length_japanese : js_length "クエリ処理" = 5.
Proof. reflexivity. Qed.

Example js_take_japanese : js_take 2 "クエリ処理" = "クエ"%string.
Proof. reflexivity. Qed.

Example js_length_supplementary : js_length "😀" = 2.
Proof. reflexivity. Qed.

Example js_take_inside_pair :
  js_take 2 "a😀"
  = String "a" (String (ascii_of_nat 237) (String (ascii_of_nat 160)
      (String (ascii_of_nat 189) EmptyString))).
Proof. reflexivity. Qed.

Example request_entry_japanese :
  meta (request_entry "Processing legal query with session"
          "日本の法律に窃盗罪が定義されていますか？" "s1")
  = [("query"%string, LStr "日本の法律に窃盗罪が定義されていますか？...");
     ("sessionId"%string, LStr "s1")].
Proof. reflexivity. Qed.


